(** * The local text-to-speech sidecar (services/audio/server.py)

    A shallow embedding of the synthesis core of [server.py]: text
    preparation, voice resolution, the capability probe, the model cache,
    the node (subprocess) backend, the stub generator and the orchestrator
    [synthesize], followed by the properties proved about them.

    Python strings are sequences of Unicode code points and are modelled as
    lists of code points.  The process-wide [STATE] object is threaded
    explicitly; an exception leaves the mutations made before it in place,
    so every effectful function maps a process state to an outcome and a
    new process state.  Everything outside the process (environment
    variables, the filesystem, child processes, the mlx runtime) is read
    from an [Env] record of oracles. *)

From Stdlib Require Import ZArith NArith QArith Qminmax String Ascii List Lia DecimalString.
From stdpp Require Import base option list gmap.
Import ListNotations.

(** ** Strings *)

Definition str := list N.

(** An ASCII literal as a Python string. *)
Definition lit (s : string) : str := map N_of_ascii (list_ascii_of_string s).

Definition str_eqb (a b : str) : bool := bool_decide (a = b).

(** [x in {...}] on strings. *)
Definition str_in (a : str) (l : list str) : bool := existsb (str_eqb a) l.

(** [str.isspace] on one code point; it is also the class [\s] of [re] on
    [str] patterns and the set [str.strip()] and [str.split()] work with. *)
Definition isspace (c : N) : bool :=
  ((9 <=? c) && (c <=? 13) || (28 <=? c) && (c <=? 32) || (c =? 133)
   || (c =? 160) || (c =? 5760) || (8192 <=? c) && (c <=? 8202)
   || (c =? 8232) || (c =? 8233) || (c =? 8239) || (c =? 8287)
   || (c =? 12288))%N.

Definition SPACE : N := 32.
Definition COMMA : N := 44.
Definition DOT : N := 46.
Definition LBRACKET : N := 91.
Definition RBRACKET : N := 93.

Fixpoint lstrip (s : str) : str :=
  match s with
  | [] => []
  | x :: r => if isspace x then lstrip r else s
  end.

Definition rstrip (s : str) : str := rev (lstrip (rev s)).

(** [s.strip()] *)
Definition strip (s : str) : str := rstrip (lstrip s).

(** [s.startswith(p)] *)
Fixpoint startswith (s p : str) {struct p} : bool :=
  match p, s with
  | [], _ => true
  | _ :: _, [] => false
  | c :: p', x :: s' => (x =? c)%N && startswith s' p'
  end.

(** [s.endswith(p)] *)
Definition endswith (s p : str) : bool := startswith (rev s) (rev p).

(** [sep.join(parts)] *)
Fixpoint join (sep : str) (parts : list str) : str :=
  match parts with
  | [] => []
  | [p] => p
  | p :: rest => p ++ sep ++ join sep rest
  end.

(** [s.split()]: the maximal runs of non-whitespace, in order. [w] is the
    word being read. *)
Fixpoint split_from (w : str) (s : str) : list str :=
  match s with
  | [] => match w with [] => [] | _ => [w] end
  | c :: r =>
      if isspace c
      then match w with [] => split_from [] r | _ => w :: split_from [] r end
      else split_from (w ++ [c]) r
  end.

Definition split (s : str) : list str := split_from [] s.

(** [str(n)] for an integer. *)
Definition str_of_Z (n : Z) : str := lit (NilZero.string_of_int (Z.to_int n)).

(** ** Regular expressions

    [re.sub(pattern, repl, text)] replaces the leftmost non-overlapping
    matches.  A pattern is represented by its matcher: the length of the
    match at the start of a string, if there is one.  No pattern of
    [server.py] matches the empty string.  [skip] counts the characters
    of the current match that are still to be passed over. *)

Fixpoint re_sub_from (m : str -> option nat) (repl : str) (skip : nat) (s : str) : str :=
  match s with
  | [] => []
  | x :: r =>
      match skip with
      | S k => re_sub_from m repl k r
      | O =>
          match m s with
          | Some (S n) => repl ++ re_sub_from m repl n r
          | _ => x :: re_sub_from m repl 0 r
          end
      end
  end.

Definition re_sub (m : str -> option nat) (repl : str) (s : str) : str :=
  re_sub_from m repl 0 s.

(** Length of the whitespace run at the start of [s]. *)
Fixpoint ws_run (s : str) : nat :=
  match s with
  | x :: r => if isspace x then S (ws_run r) else 0
  | [] => 0
  end.

(** [\s+] *)
Definition match_ws (s : str) : option nat :=
  match ws_run s with
  | O => None
  | n => Some n
  end.

(** [\s+c] for a literal [c]: the greedy [\s+] first takes the whole run
    ([n] characters) and gives characters back one at a time until the
    next character is [c]. *)
Fixpoint backtrack_ws_then (c : N) (s : str) (n : nat) : option nat :=
  match n with
  | O => None
  | S k =>
      match nth_error s n with
      | Some y => if (y =? c)%N then Some (S n) else backtrack_ws_then c s k
      | None => backtrack_ws_then c s k
      end
  end.

Definition match_ws_then (c : N) (s : str) : option nat :=
  backtrack_ws_then c s (ws_run s).

(** ** Text preparer *)

Definition normalize_for_speech (text : str) : str :=
  let text := strip (re_sub match_ws (lit " ") text) in
  let text := re_sub (match_ws_then COMMA) (lit ",") text in
  let text := re_sub (match_ws_then DOT) (lit ".") text in
  text.

(** Truthiness of a string: [if s:]. *)
Definition truthy (s : str) : bool :=
  match s with
  | [] => false
  | _ :: _ => true
  end.

(** [a or b] on strings. *)
Definition por (a b : str) : str := if truthy a then a else b.

(** ** Library functions the module relies on

    [str.lower] (the Unicode case mapping) and the [pathlib] operations are
    not part of [server.py]; the development is parametric in them.
    [path_str p] is [str(Path(p))], [path_stem p] is [Path(p).stem] and
    [path_join a b] is [str(Path(a) / b)]. *)

Class PyLib : Type := {
  str_lower : str -> str;
  path_str : str -> str;
  path_stem : str -> str;
  path_join : str -> str -> str
}.

(** ** Exceptions and outcomes

    Only subclasses of [Exception] are modelled: these are what a
    backend can raise as an error and what [except Exception] catches. *)

Inductive exn : Type :=
| RuntimeError (msg : str)
| FileNotFoundError (msg : str)
| KeyError (key : str)
| OtherError (cls msg : str).

(** [str(error)] *)
Definition exn_str (e : exn) : str :=
  match e with
  | RuntimeError msg => msg
  | FileNotFoundError msg => msg
  | KeyError key => lit "'" ++ key ++ lit "'"
  | OtherError _ msg => msg
  end.

Definition is_runtime_error (e : exn) : bool :=
  match e with
  | RuntimeError _ => true
  | _ => false
  end.

Inductive pyresult (A : Type) : Type :=
| Ok (a : A)
| Raise (e : exn).

Arguments Ok {A} a.
Arguments Raise {A} e.

(** ** Data model *)

(** A loaded model and the loader function are opaque objects, known
    by their identity. *)
Definition handle := N.
Definition loader := N.
Definition waveform := list Q.

Record SynthResult : Type := {
  wav_path : str;
  used_engine : str
}.

(** What [subprocess.run(..., capture_output=True, text=True)] returns. *)
Record CompletedProcess : Type := {
  returncode : Z;
  stdout : option str;
  stderr : option str
}.

Record RuntimeState : Type := {
  model_cache : gmap str handle;
  model_source : gmap str str;
  mlx_probe_attempted : bool;
  mlx_probe_available : bool;
  mlx_probe_error : option str;
  mlx_load_model : option loader
}.

(** [RuntimeState()] *)
Definition initial_state : RuntimeState := {|
  model_cache := ∅;
  model_source := ∅;
  mlx_probe_attempted := false;
  mlx_probe_available := false;
  mlx_probe_error := None;
  mlx_load_model := None
|}.

Inductive backend : Type := Node | Mlx | Stub.

(** The process: the global [STATE] and, for the statements about what
    was invoked, three observers that the code does not read: how often
    the model loader and the node child process were called, and the
    backends attempted so far, in order. *)
Record Proc : Type := {
  STATE : RuntimeState;
  load_calls : nat;
  node_calls : nat;
  attempts : list backend
}.

Definition initial_proc : Proc :=
  {| STATE := initial_state; load_calls := 0; node_calls := 0; attempts := [] |}.

(** The world outside the process, as the calls of one operation see
    it.  The loader and the node child process are indexed by the number
    of earlier calls, so that a repeated call may behave differently. *)
Record Env : Type := {
  getenv : str -> option str;
  path_exists : str -> bool;
  (* probe_mlx_runtime: the child process importing mlx_audio *)
  run_probe : pyresult CompletedProcess;
  (* get_mlx_loader: the in-process import of load_model *)
  import_loader : pyresult loader;
  (* load_model(source) *)
  call_loader : loader -> nat -> str -> pyresult handle;
  (* render_with_model on numpy and model_instance.generate *)
  render_with_model : handle -> str -> str -> str -> Q -> pyresult waveform;
  (* getattr(model_instance, attr, None) when it is an int *)
  model_attr_int : handle -> str -> option Z;
  (* write_waveform on numpy, soundfile and wave *)
  write_waveform : str -> waveform -> Z -> pyresult unit;
  (* Path(override).expanduser().resolve(): RuntimeError for a home
     directory that cannot be determined or a symlink loop *)
  resolve_path : str -> pyresult str;
  (* Path(__file__).resolve().parents[1] / "kokoro-node" / "cli.mjs" *)
  sibling_script : str;
  (* the flags, the child's environment and its cache directories:
     shlex.split and mkdir can raise *)
  node_prepare : nat -> pyresult unit;
  (* subprocess.run of the node command: script, text, voice, output, speed *)
  run_node : nat -> str -> str -> str -> str -> Q -> pyresult CompletedProcess;
  (* output_path.exists() after the child process has run *)
  output_exists : nat -> str -> bool;
  (* the wave module writing the stub tone: path, number of samples, frequency *)
  write_stub : str -> Z -> Q -> pyresult unit
}.

(** ** State and exceptions *)

Definition M (A : Type) : Type := Proc -> pyresult A * Proc.

Definition ret {A} (a : A) : M A := fun p => (Ok a, p).

Definition raise {A} (e : exn) : M A := fun p => (Raise e, p).

Definition bind {A B} (m : M A) (k : A -> M B) : M B :=
  fun p =>
    match m p with
    | (Ok a, p') => k a p'
    | (Raise e, p') => (Raise e, p')
    end.

(** [try: return m  except Exception: (log); k] *)
Definition try_return {A} (m : M A) (k : M A) : M A :=
  fun p =>
    match m p with
    | (Ok a, p') => (Ok a, p')
    | (Raise _, p') => k p'
    end.

Definition lift {A} (r : pyresult A) : M A := fun p => (r, p).

Definition get_state : M RuntimeState := fun p => (Ok (STATE p), p).

Definition put_state (s : RuntimeState) : M unit :=
  fun p => (Ok tt, {| STATE := s; load_calls := load_calls p;
                      node_calls := node_calls p; attempts := attempts p |}).

Definition note_attempt (b : backend) : M unit :=
  fun p => (Ok tt, {| STATE := STATE p; load_calls := load_calls p;
                      node_calls := node_calls p; attempts := attempts p ++ [b] |}).

(** The number of earlier loader calls; counts this one. *)
Definition next_load : M nat :=
  fun p => (Ok (load_calls p),
            {| STATE := STATE p; load_calls := S (load_calls p);
               node_calls := node_calls p; attempts := attempts p |}).

Definition next_node : M nat :=
  fun p => (Ok (node_calls p),
            {| STATE := STATE p; load_calls := load_calls p;
               node_calls := S (node_calls p); attempts := attempts p |}).

Notation "x <- m ;; k" := (bind m (fun x => k))
  (at level 20, m at level 99, k at level 200, only parsing).
Notation "m ;;; k" := (bind m (fun _ => k))
  (at level 100, k at level 200, only parsing, right associativity).

Definition set_attempted (s : RuntimeState) (b : bool) : RuntimeState :=
  {| model_cache := model_cache s; model_source := model_source s;
     mlx_probe_attempted := b; mlx_probe_available := mlx_probe_available s;
     mlx_probe_error := mlx_probe_error s; mlx_load_model := mlx_load_model s |}.

Definition set_available (s : RuntimeState) (b : bool) : RuntimeState :=
  {| model_cache := model_cache s; model_source := model_source s;
     mlx_probe_attempted := mlx_probe_attempted s; mlx_probe_available := b;
     mlx_probe_error := mlx_probe_error s; mlx_load_model := mlx_load_model s |}.

Definition set_error (s : RuntimeState) (e : option str) : RuntimeState :=
  {| model_cache := model_cache s; model_source := model_source s;
     mlx_probe_attempted := mlx_probe_attempted s;
     mlx_probe_available := mlx_probe_available s;
     mlx_probe_error := e; mlx_load_model := mlx_load_model s |}.

Definition set_loader (s : RuntimeState) (l : option loader) : RuntimeState :=
  {| model_cache := model_cache s; model_source := model_source s;
     mlx_probe_attempted := mlx_probe_attempted s;
     mlx_probe_available := mlx_probe_available s;
     mlx_probe_error := mlx_probe_error s; mlx_load_model := l |}.

Definition set_model (s : RuntimeState) (kind : str) (h : handle) (source : str)
  : RuntimeState :=
  {| model_cache := <[kind := h]> (model_cache s);
     model_source := <[kind := source]> (model_source s);
     mlx_probe_attempted := mlx_probe_attempted s;
     mlx_probe_available := mlx_probe_available s;
     mlx_probe_error := mlx_probe_error s; mlx_load_model := mlx_load_model s |}.

(** ** The server *)

Definition MODEL_SOURCES (model_kind : str) : option (str * str) :=
  if str_eqb model_kind (lit "kokoro")
  then Some (lit "mlx-community/Kokoro-82M-bf16", lit "LOCAL_PODCAST_KOKORO_MODEL")
  else if str_eqb model_kind (lit "chatterbox")
  then Some (lit "mlx-community/Chatterbox-bf16", lit "LOCAL_PODCAST_CHATTERBOX_MODEL")
  else None.

Definition VOICE_MAP : list (str * str) :=
  [ (lit "kokoro_narrator", lit "af_heart");
    (lit "kokoro_story", lit "af_bella");
    (lit "chatterbox_expressive", lit "expressive");
    (lit "chatterbox_studio", lit "neutral") ].

(** [d.get(key, default)] *)
Fixpoint dict_get (d : list (str * str)) (key default : str) : str :=
  match d with
  | [] => default
  | (k, v) :: d' => if str_eqb key k then v else dict_get d' key default
  end.

(** [os.getenv(name, default)] *)
Definition getenv_or (E : Env) (name default : str) : str :=
  match getenv E name with
  | Some v => v
  | None => default
  end.

Section Server.

Context {L : PyLib}.

Definition apply_expression_tags (text : str) (expression_tags : list str) : str :=
  match expression_tags with
  | [] => text
  | _ :: _ =>
      let normalized_tags :=
        map (fun tag => str_lower (strip tag))
            (List.filter (fun tag => truthy (strip tag)) expression_tags) in
      match normalized_tags with
      | [] => text
      | _ :: _ =>
          let tag_prefix :=
            join (lit " ") (map (fun tag => lit "[" ++ tag ++ lit "]") normalized_tags) in
          if startswith text (lit "[") then text
          else tag_prefix ++ lit " " ++ text
      end
  end.

Definition mlx_runtime_enabled (E : Env) : bool :=
  negb (str_in (str_lower (getenv_or E (lit "LOCAL_PODCAST_ENABLE_MLX") (lit "1")))
               [lit "0"; lit "false"; lit "no"]).

Definition probe_mlx_runtime (E : Env) : M unit :=
  s <- get_state ;;
  if mlx_probe_attempted s then ret tt
  else
    let s := set_attempted s true in
    match run_probe E with
    | Ok result =>
        let s := set_available s (returncode result =? 0)%Z in
        if negb (returncode result =? 0)%Z
        then
          let stderr := strip (default [] (stderr result)) in
          let stdout := strip (default [] (stdout result)) in
          put_state
            (set_error s
               (Some (por stderr
                        (por stdout (lit "probe_exit_" ++ str_of_Z (returncode result))))))
        else put_state s
    | Raise error =>
        put_state (set_error (set_available s false) (Some (exn_str error)))
    end.

Definition mlx_runtime_available (E : Env) : M bool :=
  if negb (mlx_runtime_enabled E) then ret false
  else
    s <- get_state ;;
    (if negb (mlx_probe_attempted s) then probe_mlx_runtime E else ret tt) ;;;
    s <- get_state ;;
    ret (mlx_probe_available s).

Definition get_mlx_loader (E : Env) : M (option loader) :=
  available <- mlx_runtime_available E ;;
  if negb available then ret None
  else
    s <- get_state ;;
    match mlx_load_model s with
    | Some load_model => ret (Some load_model)
    | None =>
        match import_loader E with
        | Raise error =>
            put_state (set_error (set_available s false) (Some (exn_str error))) ;;;
            ret None
        | Ok dynamic_loader =>
            put_state (set_loader s (Some dynamic_loader)) ;;;
            ret (Some dynamic_loader)
        end
    end.

Definition resolve_model_source (E : Env) (model_kind : str) : pyresult str :=
  match MODEL_SOURCES model_kind with
  | None => Raise (KeyError model_kind)
  | Some (_, config_env) =>
      let env_value := getenv E config_env in
      if truthy (default [] env_value) then Ok (default [] env_value)
      else
        let models_dir_value := strip (getenv_or E (lit "LOCAL_PODCAST_MODELS_DIR") []) in
        if negb (truthy models_dir_value)
        then Raise (RuntimeError
                      (lit "LOCAL_PODCAST_MODELS_DIR is not set; cannot resolve bundled '"
                       ++ model_kind ++ lit "' model."))
        else
          let local_dir := path_join models_dir_value model_kind in
          if path_exists E local_dir then Ok local_dir
          else Raise (RuntimeError
                        (lit "Bundled model directory missing for '" ++ model_kind
                         ++ lit "': expected '" ++ local_dir
                         ++ lit "'. Provide local assets or set " ++ config_env
                         ++ lit " explicitly."))
  end.

(** [ensure_espeak_wrapper_compat] patches a class of the phonemizer
    package and swallows its own failures; it does not touch [STATE]. *)
Definition get_or_load_model (E : Env) (model_kind : str) : M handle :=
  load_model <- get_mlx_loader E ;;
  match load_model with
  | None => raise (RuntimeError (lit "mlx-audio loader is unavailable in current runtime"))
  | Some load_model =>
      s <- get_state ;;
      match model_cache s !! model_kind with
      | Some cached => ret cached
      | None =>
          source <- lift (resolve_model_source E model_kind) ;;
          n <- next_load ;;
          model_instance <- lift (call_loader E load_model n source) ;;
          s <- get_state ;;
          put_state (set_model s model_kind model_instance source) ;;;
          ret model_instance
      end
  end.

Definition resolve_voice_id (E : Env) (voice_id model_kind : str) : str :=
  let mapped := strip (dict_get VOICE_MAP voice_id voice_id) in
  if negb (str_eqb model_kind (lit "kokoro")) then por mapped (lit "neutral")
  else
    let from_models_dir (mapped : str) : str :=
      let models_dir_value := strip (getenv_or E (lit "LOCAL_PODCAST_MODELS_DIR") []) in
      let candidate :=
        path_join (path_join (path_join models_dir_value (lit "kokoro")) (lit "voices"))
                  (mapped ++ lit ".safetensors") in
      if truthy models_dir_value && truthy mapped && path_exists E candidate
      then candidate
      else por mapped (lit "af_heart") in
    if endswith mapped (lit ".safetensors")
    then
      if path_exists E (path_str mapped) then path_str mapped
      else from_models_dir (path_stem mapped)
    else from_models_dir mapped.

Definition kokoro_backend_mode (E : Env) : str :=
  str_lower (strip (getenv_or E (lit "LOCAL_PODCAST_KOKORO_BACKEND") (lit "auto"))).

Definition should_try_node_before_python (E : Env) (model_kind : str) : bool :=
  if negb (str_eqb model_kind (lit "kokoro")) then false
  else str_in (kokoro_backend_mode E) [lit "node"; lit "node-first"].

Definition should_try_node_after_python (E : Env) (model_kind : str) : bool :=
  if negb (str_eqb model_kind (lit "kokoro")) then false
  else str_in (kokoro_backend_mode E)
         [lit "auto"; lit "node"; lit "node-first"; lit "node-fallback"; lit "python-node"].

Definition resolve_kokoro_node_voice (voice_id : str) : str :=
  let mapped := strip (dict_get VOICE_MAP voice_id voice_id) in
  let mapped := if endswith mapped (lit ".safetensors") then path_stem mapped else mapped in
  por mapped (lit "af_heart").

Definition resolve_kokoro_node_script_path (E : Env) : pyresult str :=
  let override := strip (getenv_or E (lit "LOCAL_PODCAST_KOKORO_NODE_SCRIPT") []) in
  if truthy override
  then
    match resolve_path E override with
    | Raise error => Raise error
    | Ok candidate =>
        if path_exists E candidate then Ok candidate
        else Raise (FileNotFoundError
                      (lit "Configured kokoro node script not found: " ++ candidate))
    end
  else
    let candidate := sibling_script E in
    if path_exists E candidate then Ok candidate
    else Raise (FileNotFoundError
                  (lit "Kokoro node script not found. Expected LOCAL_PODCAST_KOKORO_NODE_SCRIPT or sibling path services/kokoro-node/cli.mjs.")).

(** What the code makes of the finished child process. *)
Definition node_outcome (result : CompletedProcess) (output_written : bool)
    (output_path : str) : pyresult SynthResult :=
  if negb (returncode result =? 0)%Z
  then
    let stderr := strip (default [] (stderr result)) in
    let stdout := strip (default [] (stdout result)) in
    let detail := por stderr (por stdout (lit "exit_" ++ str_of_Z (returncode result))) in
    Raise (RuntimeError (lit "kokoro-node synthesis failed: " ++ detail))
  else if negb output_written
  then Raise (RuntimeError
                (lit "kokoro-node synthesis completed without writing output file"))
  else Ok {| wav_path := output_path; used_engine := lit "kokoro-node" |}.

(** The node binary, its flags, the child's environment and the cache
    directories only reach the child process; what can go wrong while
    they are prepared is [node_prepare], the child itself is [run_node]. *)
Definition synthesize_kokoro_node (E : Env) (text output_path : str) (speed : Q)
    (voice_id : str) : M SynthResult :=
  note_attempt Node ;;;
  n <- next_node ;;
  script <- lift (resolve_kokoro_node_script_path E) ;;
  lift (node_prepare E n) ;;;
  let node_voice := resolve_kokoro_node_voice voice_id in
  result <- lift (run_node E n script text node_voice output_path speed) ;;
  lift (node_outcome result (output_exists E n output_path) output_path).

Definition infer_sample_rate (E : Env) (model_instance : handle) : Z :=
  let positive (attr : str) : option Z :=
    match model_attr_int E model_instance attr with
    | Some value => if (0 <? value)%Z then Some value else None
    | None => None
    end in
  match positive (lit "sample_rate"), positive (lit "sampling_rate"), positive (lit "sr") with
  | Some value, _, _ => value
  | None, Some value, _ => value
  | None, None, Some value => value
  | None, None, None => 24000
  end.

Definition synthesize_mlx (E : Env) (text output_path : str) (speed : Q)
    (model voice_id : str) (expression_tags : list str) : M unit :=
  note_attempt Mlx ;;;
  model_instance <- get_or_load_model E model ;;
  let model_voice := resolve_voice_id E voice_id model in
  let render_text := apply_expression_tags text expression_tags in
  waveform <- lift (render_with_model E model_instance model render_text model_voice speed) ;;
  let sample_rate := infer_sample_rate E model_instance in
  lift (write_waveform E output_path waveform sample_rate).

(** [int(x)] on a float: truncation towards zero. *)
Definition int_of_Q (x : Q) : Z := Z.quot (Qnum x) (Z.pos (Qden x)).

Definition word_count (text : str) : Q := inject_Z (Z.of_nat (length (split text))).

Definition stub_raw_duration (text : str) (speed : Q) : Q :=
  (word_count text / Qmax ((28 # 10) * speed) (5 # 10))%Q.

Definition stub_duration (text : str) (speed : Q) : Q :=
  Qmax (35 # 100) (Qmin 12 (stub_raw_duration text speed)).

Definition stub_frequency (model : str) : Q :=
  if str_eqb model (lit "kokoro") then 195%Q else 230%Q.

Definition stub_total_samples (text : str) (speed : Q) : Z :=
  int_of_Q (stub_duration text speed * inject_Z 24000).

Definition synthesize_stub (E : Env) (text output_path : str) (speed : Q)
    (model : str) : M SynthResult :=
  note_attempt Stub ;;;
  let duration_seconds := stub_duration text speed in
  let sample_rate := 24000%Z in
  let frequency := stub_frequency model in
  let total_samples := int_of_Q (duration_seconds * inject_Z sample_rate) in
  lift (write_stub E output_path total_samples frequency) ;;;
  ret {| wav_path := output_path; used_engine := lit "stub" |}.

Definition synthesize (E : Env) (text output_path : str) (speed : Q)
    (model voice_id : str) (expression_tags : list str) : M SynthResult :=
  let cleaned_text := normalize_for_speech text in
  let render_text := apply_expression_tags cleaned_text expression_tags in
  let node := synthesize_kokoro_node E render_text output_path speed voice_id in
  let stub :=
    synthesize_stub E cleaned_text output_path speed model ;;;
    ret {| wav_path := output_path; used_engine := lit "stub" |} in
  let python :=
    available <- mlx_runtime_available E ;;
    if negb available
    then
      if should_try_node_after_python E model then try_return node stub else stub
    else
      try_return
        (synthesize_mlx E render_text output_path speed model voice_id [] ;;;
         ret {| wav_path := output_path; used_engine := lit "mlx-audio" |})
        (if should_try_node_after_python E model then try_return node stub else stub) in
  if should_try_node_before_python E model then try_return node python else python.

End Server.

(** ** The operations on the process

    The functions of the core that read or write [STATE], as one step of
    the process each. *)

Inductive op : Type :=
| OpProbe
| OpAvailable
| OpGetLoader
| OpGetOrLoad (model_kind : str)
| OpSynthesizeMlx (text output_path : str) (speed : Q) (model voice_id : str)
    (expression_tags : list str)
| OpKokoroNode (text output_path : str) (speed : Q) (voice_id : str)
| OpStub (text output_path : str) (speed : Q) (model : str)
| OpSynthesize (text output_path : str) (speed : Q) (model voice_id : str)
    (expression_tags : list str).

Definition run_op {L : PyLib} (E : Env) (o : op) (p : Proc) : Proc :=
  match o with
  | OpProbe => snd (probe_mlx_runtime E p)
  | OpAvailable => snd (mlx_runtime_available E p)
  | OpGetLoader => snd (get_mlx_loader E p)
  | OpGetOrLoad model_kind => snd (get_or_load_model E model_kind p)
  | OpSynthesizeMlx text output_path speed model voice_id expression_tags =>
      snd (synthesize_mlx E text output_path speed model voice_id expression_tags p)
  | OpKokoroNode text output_path speed voice_id =>
      snd (synthesize_kokoro_node E text output_path speed voice_id p)
  | OpStub text output_path speed model =>
      snd (synthesize_stub E text output_path speed model p)
  | OpSynthesize text output_path speed model voice_id expression_tags =>
      snd (synthesize E text output_path speed model voice_id expression_tags p)
  end.

(** A run of the process: operations, each in the environment of its
    moment. *)
Definition run_ops {L : PyLib} (l : list (Env * op)) (p : Proc) : Proc :=
  fold_left (fun q step => run_op (fst step) (snd step) q) l p.

(** The operations that go through [get_mlx_loader]. *)
Definition reaches_loader (o : op) : bool :=
  match o with
  | OpGetLoader | OpGetOrLoad _ | OpSynthesizeMlx _ _ _ _ _ _
  | OpSynthesize _ _ _ _ _ _ => true
  | OpProbe | OpAvailable | OpKokoroNode _ _ _ _ | OpStub _ _ _ _ => false
  end.

(** ** The specification's formulas

    Written from the words of the specification, to be compared with the
    code above. *)

(** [clamp(x, lo, hi)] *)
Definition clamp (x lo hi : Q) : Q := Qmax lo (Qmin hi x).

(** The raw stub duration of the specification: [word_count / (2.8 * speed)]. *)
Definition claimed_raw_duration (text : str) (speed : Q) : Q :=
  (word_count text / ((28 # 10) * speed))%Q.

(** [clamp(word_count / (2.8 * speed), 0.35, 12.0)] *)
Definition claimed_stub_duration (text : str) (speed : Q) : Q :=
  clamp (claimed_raw_duration text speed) (35 # 100) 12.

(** The bracketed rendering of the lowercased, trimmed tags in their
    original order: every tag of the list, bracketed, separated by one
    space. *)
Definition claimed_tag_prefix {L : PyLib} (expression_tags : list str) : str :=
  join (lit " ") (map (fun tag => lit "[" ++ str_lower (strip tag) ++ lit "]") expression_tags).

(** ** A concrete library and concrete environments

    ASCII case mapping and plain POSIX paths, to run the definitions on. *)

Definition ascii_lower (s : str) : str :=
  map (fun c => if ((65 <=? c) && (c <=? 90))%N then (c + 32)%N else c) s.

Definition posix_basename (p : str) : str :=
  fold_left (fun acc c => if (c =? 47)%N then [] else acc ++ [c]) p [].

Fixpoint before_dot (r : str) : option str :=
  match r with
  | [] => None
  | c :: r' => if (c =? DOT)%N then Some r' else before_dot r'
  end.

Definition posix_stem (p : str) : str :=
  let name := posix_basename p in
  match before_dot (rev name) with
  | Some (c :: r) => rev (c :: r)
  | _ => name
  end.

Definition posix_ascii : PyLib := {|
  str_lower := ascii_lower;
  path_str := fun p => p;
  path_stem := posix_stem;
  path_join := fun a b => a ++ lit "/" ++ b
|}.

(** An environment given by its variables, its files and the behaviour
    of the probe, of the import and of the node child process; the loader
    returns a new object at every call. *)
Definition make_env (vars : list (str * str)) (files : list str)
    (probe : pyresult CompletedProcess) (import : pyresult loader)
    (node : pyresult CompletedProcess) (node_writes : bool) : Env := {|
  getenv := fun name =>
    if str_in name (map fst vars) then Some (dict_get vars name []) else None;
  path_exists := fun path => str_in path files;
  run_probe := probe;
  import_loader := import;
  call_loader := fun _ n _ => Ok (N.of_nat n);
  render_with_model := fun _ _ _ _ _ => Ok [0%Q];
  model_attr_int := fun _ _ => None;
  write_waveform := fun _ _ _ => Ok tt;
  resolve_path := fun path => Ok path;
  sibling_script := lit "/app/services/kokoro-node/cli.mjs";
  node_prepare := fun _ => Ok tt;
  run_node := fun _ _ _ _ _ _ => node;
  output_exists := fun _ _ => node_writes;
  write_stub := fun _ _ _ => Ok tt
|}.

Definition exited (code : Z) (err : str) : pyresult CompletedProcess :=
  Ok {| returncode := code; stdout := Some []; stderr := Some err |}.

(** Nothing is installed: no variables, no files, the probe exits with 1. *)
Definition bare_env : Env :=
  make_env [] [] (exited 1 (lit "No module named 'mlx_audio'"))
    (Raise (OtherError (lit "ModuleNotFoundError") (lit "No module named 'mlx_audio'")))
    (exited 1 []) false.

(** The mlx runtime is installed and a kokoro model is configured. *)
Definition mlx_env : Env :=
  make_env [(lit "LOCAL_PODCAST_KOKORO_MODEL", lit "/models/kokoro")] []
    (exited 0 []) (Ok 1%N) (exited 1 []) false.

(** The probe succeeds in its child process, the import fails in-process. *)
Definition broken_import_env : Env :=
  make_env [] [] (exited 0 [])
    (Raise (OtherError (lit "ImportError") (lit "cannot import name 'load_model'")))
    (exited 1 []) false.

(** The node script is in place; the child exits with [code] and [err]
    on stderr and has written the output file or not. *)
Definition node_env (code : Z) (err : str) (written : bool) : Env :=
  make_env [(lit "LOCAL_PODCAST_KOKORO_BACKEND", lit "node")]
    [lit "/app/services/kokoro-node/cli.mjs"]
    (exited 1 []) (Raise (OtherError (lit "ImportError") [])) (exited code err) written.

(** ** The substitutions of the normalizer, one character at a time

    What [re.sub] does for the three patterns of [normalize_for_speech],
    as structural recursions; they are shown equal to [re_sub] below. *)

Definition head_space (s : str) : bool :=
  match s with
  | x :: _ => isspace x
  | [] => false
  end.

(** Every whitespace run becomes one space, written at its last character. *)
Fixpoint collapse (s : str) : str :=
  match s with
  | [] => []
  | x :: r =>
      if isspace x
      then if head_space r then collapse r else SPACE :: collapse r
      else x :: collapse r
  end.

(** The first character of [s] after its leading whitespace is [c]. *)
Fixpoint ws_then (c : N) (s : str) : bool :=
  match s with
  | [] => false
  | x :: r => if isspace x then ws_then c r else (x =? c)%N
  end.

(** The whitespace runs that end at a [c] are dropped. *)
Fixpoint drop_ws_before (c : N) (s : str) : str :=
  match s with
  | [] => []
  | x :: r =>
      if isspace x && ws_then c r then drop_ws_before c r
      else x :: drop_ws_before c r
  end.

(** Every whitespace character is a space and the next character, if
    there is one, is not whitespace. *)
Fixpoint loosely_spaced (s : str) : bool :=
  match s with
  | [] => true
  | x :: r =>
      (if isspace x then (x =? SPACE)%N && negb (head_space r) else true)
      && loosely_spaced r
  end.

(** Every whitespace character is a space and is followed by a character
    that is neither whitespace nor in [bad]. *)
Fixpoint spaced (bad : N -> bool) (s : str) : bool :=
  match s with
  | [] => true
  | x :: r =>
      (if isspace x
       then (x =? SPACE)%N
            && match r with
               | [] => false
               | y :: _ => negb (isspace y) && negb (bad y)
               end
       else true)
      && spaced bad r
  end.

Definition no_char (c : N) : bool := false.

Definition or_char (bad : N -> bool) (c : N) (y : N) : bool := bad y || (y =? c)%N.

(** The shape of a normalized text. *)
Definition normalized (s : str) : bool :=
  negb (head_space s) && spaced (or_char (or_char no_char COMMA) DOT) s.

(** ** Outcomes and frames of a computation *)

(** Whatever the process, [m] returns a value in [Q] or raises an
    exception in [P]. *)
Definition post {A} (m : M A) (Q : A -> Prop) (P : exn -> Prop) : Prop :=
  forall p, match fst (m p) with Ok a => Q a | Raise e => P e end.

(** [m] leaves the observation [f] of the process as it is. *)
Definition preserves {A X} (f : Proc -> X) (m : M A) : Prop :=
  forall p, f (snd (m p)) = f p.

Definition anything {A} (a : A) : Prop := True.

Definition nothing {A} (a : A) : Prop := False.

(** ** The probe fields after the probe

    What a step may do to [mlx_probe_available] and [mlx_probe_error]
    once the probe has been attempted: keep them, or, when the probe had
    found the runtime and the import inside the process fails, clear
    [mlx_probe_available] and record the import error. *)

Definition probe_fields_kept (s s' : RuntimeState) : Prop :=
  mlx_probe_available s' = mlx_probe_available s
  /\ mlx_probe_error s' = mlx_probe_error s.

Definition probe_fields_downgraded (E : Env) (s s' : RuntimeState) : Prop :=
  mlx_probe_available s = true
  /\ mlx_probe_available s' = false
  /\ exists error, import_loader E = Raise error
                   /\ mlx_probe_error s' = Some (exn_str error).

Definition probe_step (E : Env) (s s' : RuntimeState) : Prop :=
  mlx_probe_attempted s' = true
  /\ (probe_fields_kept s s' \/ probe_fields_downgraded E s s').

(** From a process that has attempted the probe, [m] makes a
    [probe_step]. *)
Definition settled {A} (E : Env) (m : M A) : Prop :=
  forall p, mlx_probe_attempted (STATE p) = true ->
            probe_step E (STATE p) (STATE (snd (m p))).

(** ** The rest of the text preparer and the endpoints around it *)

Definition SUPPORTED_TAGS : list str :=
  [lit "laughs"; lit "sighs"; lit "chuckles"; lit "breathes"; lit "whispers"].

(** [re.finditer(pattern, text)]: the leftmost non-overlapping matches,
    each as the matched substring. *)
Fixpoint re_finditer_from (m : str -> option nat) (skip : nat) (s : str) : list str :=
  match s with
  | [] => []
  | x :: r =>
      match skip with
      | S k => re_finditer_from m k r
      | O =>
          match m s with
          | Some (S n) => firstn (S n) s :: re_finditer_from m n r
          | _ => re_finditer_from m 0 r
          end
      end
  end.

Definition re_finditer (m : str -> option nat) (s : str) : list str :=
  re_finditer_from m 0 s.

(** Length of the run of characters other than [c] at the start of [s]. *)
Fixpoint run_until (c : N) (s : str) : nat :=
  match s with
  | x :: r => if (x =? c)%N then 0 else S (run_until c r)
  | [] => 0
  end.

(** The pattern of [extract_tags]: an opening bracket, the longest run
    of characters other than the closing bracket, at least one, given back
    one at a time until a closing bracket follows. *)
Definition match_tag (s : str) : option nat :=
  match s with
  | x :: r =>
      if (x =? LBRACKET)%N
      then match backtrack_ws_then RBRACKET r (run_until RBRACKET r) with
           | Some n => Some (S n)
           | None => None
           end
      else None
  | [] => None
  end.

(** [match.group(1)] for that pattern: the match without its brackets. *)
Definition tag_group (matched : str) : str := removelast (tl matched).

(** A character of the class [a-zA-Z0-9_-]. *)
Definition is_slug_char (c : N) : bool :=
  ((97 <=? c) && (c <=? 122) || (65 <=? c) && (c <=? 90) || (48 <=? c) && (c <=? 57)
   || (c =? 95) || (c =? 45))%N.

(** The pattern of [sanitize]: one character outside that class. *)
Definition match_not_slug (s : str) : option nat :=
  match s with
  | c :: _ => if is_slug_char c then None else Some 1
  | [] => None
  end.

Definition sanitize (value : str) : str :=
  por (re_sub match_not_slug [] value) (lit "segment").

Record LlmPrep : Type := {
  originalText : str;
  preparedText : str;
  changed : bool
}.

Definition llm_prep (text : str) : LlmPrep :=
  let original := text in
  let prepared := normalize_for_speech original in
  {| originalText := original; preparedText := prepared;
     changed := negb (str_eqb prepared original) |}.

Record TagReport : Type := {
  isValid : bool;
  invalidTags : list str;
  supportedTags : list str
}.

Section Endpoints.

Context {L : PyLib}.

Definition extract_tags (text : str) : list str :=
  map (fun matched => str_lower (strip (tag_group matched))) (re_finditer match_tag text).

Definition validate_tags (text : str) : TagReport :=
  let tags := extract_tags text in
  let invalid_tags := List.filter (fun tag => negb (str_in tag SUPPORTED_TAGS)) tags in
  {| isValid := (length invalid_tags =? 0)%nat; invalidTags := invalid_tags;
     supportedTags := SUPPORTED_TAGS |}.

Definition resolve_lang_code (voice : str) : str :=
  let prefix := str_lower (firstn 1 voice) in
  if str_in prefix [lit "a"; lit "b"; lit "j"; lit "z"; lit "e"; lit "f"] then prefix
  else lit "a".

End Endpoints.

(** ** The fallback encoder of [write_waveform]

    The samples are real numbers here; [astype(np.int16)] truncates
    towards zero and is applied to values within the range of 16 bits. *)

(** [np.clip(waveform, -1.0, 1.0)] *)
Definition clip_waveform (w : waveform) : waveform :=
  map (fun x => Qmin 1 (Qmax (-1) x)) w.

(** [(clipped * 32767.0).astype(np.int16)] *)
Definition scale_int16 (clipped : waveform) : list Z :=
  map (fun x => int_of_Q (x * 32767)) clipped.

(** ** Steps of the global state

    [m] takes [STATE] from any process to a state related to it by [R]. *)
Definition steps {A} (R : RuntimeState -> RuntimeState -> Prop) (m : M A) : Prop :=
  forall p, R (STATE p) (STATE (snd (m p))).

(** The model cache is left alone. *)
Definition same_models (s s' : RuntimeState) : Prop :=
  model_cache s' = model_cache s /\ model_source s' = model_source s.

(** The two dictionaries of the model cache have the same keys, and
    these are model kinds of [MODEL_SOURCES]. *)
Definition coherent (s : RuntimeState) : Prop :=
  dom (model_cache s) = dom (model_source s)
  /\ dom (model_cache s) ⊆ {[lit "kokoro"; lit "chatterbox"]}.

(** Cached handles stay, and the dictionaries stay coherent. *)
Definition cache_step (s s' : RuntimeState) : Prop :=
  model_cache s ⊆ model_cache s' /\ (coherent s -> coherent s').

(** [m] only adds attempts of the backends in [allowed]. *)
Definition adds_only {A} (allowed : backend -> bool) (m : M A) : Prop :=
  forall p, exists chain,
    attempts (snd (m p)) = attempts p ++ chain /\ forallb allowed chain = true.

Definition not_mlx (b : backend) : bool :=
  match b with
  | Mlx => false
  | Node | Stub => true
  end.

(** The name under which a backend reports itself in a result. *)
Definition engine_name (b : backend) : str :=
  match b with
  | Node => lit "kokoro-node"
  | Mlx => lit "mlx-audio"
  | Stub => lit "stub"
  end.

(** [m] only adds to the attempts, and a result names the backend
    attempted last. *)
Definition tracks (m : M SynthResult) : Prop :=
  forall p, exists chain,
    attempts (snd (m p)) = attempts p ++ chain
    /\ match fst (m p) with
       | Ok r => exists before b, chain = before ++ [b] /\ used_engine r = engine_name b
       | Raise _ => True
       end.

(** * Properties *)

(** ** Strings and substitutions *)

Lemma re_sub_from_skip m repl k s :
  re_sub_from m repl k s = re_sub_from m repl 0 (drop k s).
Proof.
  revert k. induction s as [|x r IH]; intros [|k]; simpl; try reflexivity.
  apply IH.
Qed.

Lemma drop_ws_run s : drop (ws_run s) s = lstrip s.
Proof.
  induction s as [|x r IH]; simpl; [reflexivity|].
  destruct (isspace x); simpl; [exact IH | reflexivity].
Qed.

Lemma lstrip_length s : length (lstrip s) <= length s.
Proof.
  induction s as [|x r IH]; simpl; [lia|].
  destruct (isspace x); simpl; lia.
Qed.

Lemma head_space_lstrip s : head_space (lstrip s) = false.
Proof.
  induction s as [|x r IH]; simpl; [reflexivity|].
  destruct (isspace x) eqn:Hx; simpl; [exact IH | exact Hx].
Qed.

Lemma lstrip_clean s : head_space s = false -> lstrip s = s.
Proof.
  destruct s as [|x r]; simpl; [reflexivity|]. intros ->. reflexivity.
Qed.

Lemma collapse_space x r :
  isspace x = true -> collapse (x :: r) = SPACE :: collapse (lstrip r).
Proof.
  revert x. induction r as [|y r IH]; intros x Hx; simpl; rewrite Hx.
  - reflexivity.
  - destruct (isspace y) eqn:Hy.
    + rewrite <- (IH y Hy). simpl. rewrite Hy. reflexivity.
    + simpl. rewrite Hy. reflexivity.
Qed.

Lemma re_sub_ws_cons x r :
  re_sub match_ws (lit " ") (x :: r) =
  if isspace x then SPACE :: re_sub match_ws (lit " ") (lstrip r)
  else x :: re_sub match_ws (lit " ") r.
Proof.
  unfold re_sub. simpl. unfold match_ws. simpl.
  destruct (isspace x); [|reflexivity].
  rewrite re_sub_from_skip, drop_ws_run. reflexivity.
Qed.

(** [re.sub(r"\s+", " ", s)] *)
Lemma re_sub_ws_collapse s : re_sub match_ws (lit " ") s = collapse s.
Proof.
  remember (length s) as n eqn:Hn. revert s Hn.
  induction n as [n IH] using lt_wf_ind. intros [|x r] Hn; [reflexivity|].
  rewrite re_sub_ws_cons. simpl in Hn.
  destruct (isspace x) eqn:Hx.
  - rewrite (collapse_space x r Hx). f_equal.
    apply (IH (length (lstrip r))); [|reflexivity].
    pose proof (lstrip_length r). lia.
  - simpl. rewrite Hx. f_equal. apply (IH (length r)); [lia | reflexivity].
Qed.

Lemma nth_error_in_run s k :
  k < ws_run s -> exists y, nth_error s k = Some y /\ isspace y = true.
Proof.
  revert k. induction s as [|x r IH]; simpl; intros k Hk; [lia|].
  destruct (isspace x) eqn:Hx; [|lia].
  destruct k as [|k]; simpl; [eauto|]. apply IH. lia.
Qed.

Lemma backtrack_inside_run c s n :
  isspace c = false -> n < ws_run s -> backtrack_ws_then c s n = None.
Proof.
  intros Hc. induction n as [|n IH]; intros Hn; cbn [backtrack_ws_then]; [reflexivity|].
  destruct (nth_error_in_run s (S n) Hn) as (y & -> & Hy).
  destruct (N.eqb_spec y c) as [->|_]; [congruence|]. apply IH. lia.
Qed.

Lemma nth_error_ws_run s : nth_error s (ws_run s) = nth_error (lstrip s) 0.
Proof.
  induction s as [|x r IH]; simpl; [reflexivity|].
  destruct (isspace x); simpl; [exact IH | reflexivity].
Qed.

Lemma ws_then_lstrip c s :
  ws_then c s = match lstrip s with y :: _ => (y =? c)%N | [] => false end.
Proof.
  induction s as [|x r IH]; simpl; [reflexivity|].
  destruct (isspace x); [exact IH | reflexivity].
Qed.

Lemma match_ws_then_cons c x r :
  isspace c = false ->
  match_ws_then c (x :: r) =
  if isspace x && ws_then c r then Some (S (S (ws_run r))) else None.
Proof.
  intros Hc. unfold match_ws_then. simpl ws_run.
  destruct (isspace x) eqn:Hx; [|reflexivity].
  cbn [backtrack_ws_then nth_error andb].
  rewrite nth_error_ws_run, ws_then_lstrip.
  assert (Hin : backtrack_ws_then c (x :: r) (ws_run r) = None).
  { apply backtrack_inside_run; [exact Hc|]. simpl. rewrite Hx. lia. }
  rewrite Hin. destruct (lstrip r) as [|y t]; simpl; [reflexivity|].
  destruct (y =? c)%N; reflexivity.
Qed.

Lemma re_sub_then_cons c x r :
  isspace c = false ->
  re_sub (match_ws_then c) [c] (x :: r) =
  if isspace x && ws_then c r
  then c :: re_sub (match_ws_then c) [c] (drop 1 (lstrip r))
  else x :: re_sub (match_ws_then c) [c] r.
Proof.
  intros Hc. unfold re_sub. cbn [re_sub_from].
  rewrite (match_ws_then_cons c x r Hc).
  destruct (isspace x && ws_then c r); [|reflexivity].
  rewrite re_sub_from_skip. simpl app. do 2 f_equal.
  rewrite <- drop_ws_run, drop_drop. f_equal. lia.
Qed.

Lemma drop_ws_before_run c r :
  isspace c = false -> ws_then c r = true ->
  drop_ws_before c r = c :: drop_ws_before c (drop 1 (lstrip r)).
Proof.
  intros Hc. induction r as [|y r IH]; simpl; [discriminate|].
  destruct (isspace y) eqn:Hy; simpl.
  - intros H. rewrite H. apply IH, H.
  - intros H. apply N.eqb_eq in H. subst y. rewrite drop_0. reflexivity.
Qed.

(** [re.sub(r"\s+c", "c", s)] for a literal [c] that is not whitespace. *)
Lemma re_sub_then_drop c s :
  isspace c = false -> re_sub (match_ws_then c) [c] s = drop_ws_before c s.
Proof.
  intros Hc. remember (length s) as n eqn:Hn. revert s Hn.
  induction n as [n IH] using lt_wf_ind. intros [|x r] Hn; [reflexivity|].
  rewrite (re_sub_then_cons c x r Hc). simpl in Hn. simpl drop_ws_before.
  destruct (isspace x && ws_then c r) eqn:Hm.
  - apply andb_true_iff in Hm as [_ Hm].
    rewrite (drop_ws_before_run c r Hc Hm). f_equal.
    apply (IH (length (drop 1 (lstrip r)))); [|reflexivity].
    rewrite length_drop. pose proof (lstrip_length r). lia.
  - f_equal. apply (IH (length r)); [lia | reflexivity].
Qed.

(** ** The shape of a normalized text *)

Lemma head_space_collapse s : head_space (collapse s) = head_space s.
Proof.
  induction s as [|x r IH]; simpl; [reflexivity|].
  destruct (isspace x) eqn:Hx; simpl; [|exact Hx].
  destruct (head_space r) eqn:Hr; [congruence | reflexivity].
Qed.

Lemma collapse_loosely_spaced s : loosely_spaced (collapse s) = true.
Proof.
  induction s as [|x r IH]; simpl; [reflexivity|].
  destruct (isspace x) eqn:Hx.
  - destruct (head_space r) eqn:Hr; [exact IH|].
    simpl. rewrite head_space_collapse, Hr, IH. reflexivity.
  - simpl. rewrite Hx, IH. reflexivity.
Qed.

Lemma lstrip_loosely_spaced s :
  loosely_spaced s = true -> loosely_spaced (lstrip s) = true.
Proof.
  induction s as [|x r IH]; simpl; [reflexivity|].
  destruct (isspace x) eqn:Hx; simpl.
  - intros H. apply andb_true_iff in H as [_ H]. apply IH, H.
  - rewrite Hx. intros H. exact H.
Qed.

(** [lstrip] cuts a whitespace prefix off. *)
Lemma lstrip_split s : exists t, s = t ++ lstrip s.
Proof.
  induction s as [|x r [t IH]]; simpl; [exists []; reflexivity|].
  destruct (isspace x).
  - exists (x :: t). simpl. f_equal. exact IH.
  - exists []. reflexivity.
Qed.

Lemma rstrip_split s :
  exists t, s = rstrip s ++ t /\ head_space (rev (rstrip s)) = false.
Proof.
  unfold rstrip. destruct (lstrip_split (rev s)) as [t Ht].
  exists (rev t). split.
  - rewrite <- rev_app_distr, <- Ht, rev_involutive. reflexivity.
  - rewrite rev_involutive. apply head_space_lstrip.
Qed.

Lemma head_space_rev_cons x u :
  u <> [] -> head_space (rev (x :: u)) = head_space (rev u).
Proof.
  intros Hu. simpl. destruct (rev u) as [|y t] eqn:Hr; [|reflexivity].
  apply (f_equal (@rev N)) in Hr. rewrite rev_involutive in Hr. contradiction.
Qed.

Lemma spaced_cons bad x r :
  spaced bad (x :: r) =
  (if isspace x
   then (x =? SPACE)%N
        && match r with
           | [] => false
           | y :: _ => negb (isspace y) && negb (bad y)
           end
   else true)
  && spaced bad r.
Proof. reflexivity. Qed.

(** Without its trailing whitespace, a loosely spaced text has a
    character that is not whitespace after every space. *)
Lemma loosely_spaced_trimmed u t :
  loosely_spaced (u ++ t) = true -> head_space (rev u) = false ->
  spaced no_char u = true.
Proof.
  induction u as [|x u IH]; simpl app; [reflexivity|].
  intros Hl Hend. cbn [loosely_spaced] in Hl.
  apply andb_true_iff in Hl as [Hx Hl].
  destruct u as [|y u'].
  - simpl in Hend. cbn [spaced]. rewrite Hend. reflexivity.
  - rewrite head_space_rev_cons in Hend by discriminate.
    rewrite spaced_cons, (IH Hl Hend), andb_true_r.
    destruct (isspace x); [|reflexivity].
    apply andb_true_iff in Hx as [-> Hy]. simpl in Hy.
    unfold no_char. rewrite Hy. reflexivity.
Qed.

Lemma rstrip_keeps_head s :
  head_space s = false -> head_space (rstrip s) = false.
Proof.
  destruct (rstrip_split s) as (t & Hs & _).
  destruct (rstrip s) as [|x u]; [reflexivity|].
  rewrite Hs. simpl. intros H. exact H.
Qed.

Lemma strip_spaced s :
  loosely_spaced s = true ->
  head_space (strip s) = false /\ spaced no_char (strip s) = true.
Proof.
  intros Hl. unfold strip. split.
  - apply rstrip_keeps_head, head_space_lstrip.
  - destruct (rstrip_split (lstrip s)) as (t & Hs & Hend).
    apply (loosely_spaced_trimmed _ t); [|exact Hend].
    rewrite <- Hs. apply lstrip_loosely_spaced, Hl.
Qed.

Lemma drop_ws_before_keeps_head c s :
  head_space s = false -> head_space (drop_ws_before c s) = false.
Proof.
  destruct s as [|x r]; simpl; [reflexivity|]. intros Hx. rewrite Hx. exact Hx.
Qed.

Lemma drop_ws_before_cons c x r :
  drop_ws_before c (x :: r) =
  if isspace x && ws_then c r then drop_ws_before c r
  else x :: drop_ws_before c r.
Proof. reflexivity. Qed.

Lemma drop_ws_before_spaced bad c s :
  isspace c = false -> spaced bad s = true ->
  spaced (or_char bad c) (drop_ws_before c s) = true.
Proof.
  intros Hc. induction s as [|x r IH]; [reflexivity|].
  rewrite spaced_cons, drop_ws_before_cons.
  intros H. apply andb_true_iff in H as [Hx Hr].
  specialize (IH Hr). destruct (isspace x) eqn:Hsx; cbn [andb].
  - apply andb_true_iff in Hx as [Hsp Hy].
    destruct r as [|y r']; [discriminate|].
    apply andb_true_iff in Hy as [Hy Hb].
    apply negb_true_iff in Hy, Hb. cbn [ws_then]. rewrite Hy.
    destruct (y =? c)%N eqn:Hyc; [exact IH|].
    rewrite drop_ws_before_cons in IH |- *. rewrite Hy in IH |- *.
    cbn [andb] in IH |- *. rewrite spaced_cons, Hsx, Hsp, Hy, IH.
    unfold or_char at 1. rewrite Hb, Hyc. reflexivity.
  - rewrite spaced_cons, Hsx. exact IH.
Qed.

Lemma normalize_normalized text : normalized (normalize_for_speech text) = true.
Proof.
  unfold normalize_for_speech, normalized.
  change (lit ",") with [COMMA]. change (lit ".") with [DOT].
  rewrite re_sub_ws_collapse, !re_sub_then_drop by reflexivity.
  destruct (strip_spaced (collapse text) (collapse_loosely_spaced text)) as [Hh Hs].
  apply andb_true_iff. split.
  - apply negb_true_iff. do 2 apply drop_ws_before_keeps_head. exact Hh.
  - do 2 (apply drop_ws_before_spaced; [reflexivity|]). exact Hs.
Qed.

Lemma spaced_collapse bad s : spaced bad s = true -> collapse s = s.
Proof.
  induction s as [|x r IH]; [reflexivity|].
  cbn [spaced collapse]. intros H. apply andb_true_iff in H as [Hx Hr].
  rewrite (IH Hr). destruct (isspace x); [|reflexivity].
  apply andb_true_iff in Hx as [Hsp Hy]. apply N.eqb_eq in Hsp. subst x.
  destruct r as [|y r']; [discriminate|].
  apply andb_true_iff in Hy as [Hy _]. apply negb_true_iff in Hy.
  simpl. rewrite Hy. reflexivity.
Qed.

Lemma spaced_last bad s x : spaced bad (s ++ [x]) = true -> isspace x = false.
Proof.
  induction s as [|y r IH]; simpl.
  - destruct (isspace x); [|reflexivity]. rewrite andb_false_r. discriminate.
  - intros H. apply andb_true_iff in H as [_ H]. apply IH, H.
Qed.

Lemma rstrip_clean bad s : spaced bad s = true -> rstrip s = s.
Proof.
  induction s as [|x r _] using rev_ind; [reflexivity|].
  intros H. apply spaced_last in H. unfold rstrip.
  rewrite rev_app_distr. simpl. rewrite H. simpl.
  rewrite rev_involutive. reflexivity.
Qed.

Lemma spaced_drop_ws_before bad c s :
  bad c = true -> spaced bad s = true -> drop_ws_before c s = s.
Proof.
  intros Hb. induction s as [|x r IH]; [reflexivity|].
  cbn [spaced drop_ws_before]. intros H. apply andb_true_iff in H as [Hx Hr].
  rewrite (IH Hr). destruct (isspace x); [|reflexivity].
  apply andb_true_iff in Hx as [_ Hy].
  destruct r as [|y r']; [discriminate|].
  apply andb_true_iff in Hy as [Hy Hby]. apply negb_true_iff in Hy, Hby.
  cbn [ws_then]. rewrite Hy.
  destruct (N.eqb_spec y c) as [->|_]; [congruence | reflexivity].
Qed.

Lemma normalized_fixed s : normalized s = true -> normalize_for_speech s = s.
Proof.
  unfold normalized. intros H. apply andb_true_iff in H as [Hh Hs].
  apply negb_true_iff in Hh. unfold normalize_for_speech.
  change (lit ",") with [COMMA]. change (lit ".") with [DOT].
  rewrite re_sub_ws_collapse, !re_sub_then_drop by reflexivity.
  rewrite (spaced_collapse _ s Hs). unfold strip.
  rewrite (lstrip_clean s Hh), (rstrip_clean _ s Hs).
  rewrite (spaced_drop_ws_before _ COMMA s eq_refl Hs).
  apply (spaced_drop_ws_before _ DOT s eq_refl Hs).
Qed.

(** C4: the text normalizer is idempotent: normalizing a normalized text
    gives it back, for every text. *)
Theorem normalize_for_speech_idempotent (x : str) :
  normalize_for_speech (normalize_for_speech x) = normalize_for_speech x.
Proof.
  apply normalized_fixed, normalize_normalized.
Qed.

(** ** Expression tags *)

Lemma startswith_app c s t : startswith s [c] = true -> startswith (s ++ t) [c] = true.
Proof.
  destruct s as [|x r]; simpl; [discriminate|]. intros H. exact H.
Qed.

Lemma join_brackets_start sep tag rest t :
  startswith (join sep ((lit "[" ++ tag ++ lit "]") :: rest) ++ t) (lit "[") = true.
Proof.
  apply startswith_app. change (lit "[") with [LBRACKET].
  destruct rest; simpl; reflexivity.
Qed.

(** C9: applying the same expression tags to the output of
    [apply_expression_tags] returns that output unchanged, for every text
    and every tag list. *)
Theorem apply_expression_tags_idempotent {L : PyLib} (text : str)
    (expression_tags : list str) :
  apply_expression_tags (apply_expression_tags text expression_tags) expression_tags
  = apply_expression_tags text expression_tags.
Proof.
  unfold apply_expression_tags.
  destruct expression_tags as [|tag0 tags0]; [reflexivity|].
  destruct (List.filter (fun tag => truthy (strip tag)) (tag0 :: tags0))
    as [|tag tags]; [reflexivity|].
  cbn [map]. destruct (startswith text (lit "[")) eqn:Htext.
  - rewrite Htext. reflexivity.
  - rewrite join_brackets_start. reflexivity.
Qed.

Lemma filter_nonempty {A} (f : A -> bool) (l : list A) :
  existsb f l = true -> List.filter f l <> [].
Proof.
  induction l as [|x r IH]; simpl; [discriminate|].
  destruct (f x); [discriminate | exact IH].
Qed.

(** C6, as the code has it: when at least one tag is not blank and the
    text does not start with an opening bracket, the output is the
    bracketed rendering of the lowercased, trimmed non-blank tags in
    their original order, one space, and the original text. *)
Theorem apply_expression_tags_prefix {L : PyLib} (text : str)
    (expression_tags : list str) :
  existsb (fun tag => truthy (strip tag)) expression_tags = true ->
  startswith text (lit "[") = false ->
  apply_expression_tags text expression_tags
  = claimed_tag_prefix (List.filter (fun tag => truthy (strip tag)) expression_tags)
    ++ lit " " ++ text.
Proof.
  intros Htags Htext. unfold apply_expression_tags, claimed_tag_prefix.
  destruct expression_tags as [|tag0 tags0]; [discriminate|].
  apply filter_nonempty in Htags.
  destruct (List.filter (fun tag => truthy (strip tag)) (tag0 :: tags0))
    as [|tag tags]; [contradiction|].
  cbn [map]. rewrite Htext, map_map. reflexivity.
Qed.

Lemma apply_expression_tags_prefix_witness :
  let tags := [lit " Laughs "; lit " "; lit "SIGHS"] in
  existsb (fun tag => truthy (strip tag)) tags = true /\
  startswith (lit "hi") (lit "[") = false /\
  apply_expression_tags (L := posix_ascii) (lit "hi") tags
  = claimed_tag_prefix (L := posix_ascii) [lit " Laughs "; lit "SIGHS"] ++ lit " hi".
Proof.
  split; [reflexivity|]. split; [reflexivity|].
  exact (apply_expression_tags_prefix (L := posix_ascii) (lit "hi")
           [lit " Laughs "; lit " "; lit "SIGHS"] eq_refl eq_refl).
Defined.

(** A tag list that is not empty but holds only a blank tag: the text
    comes back without any bracket, so it does not start with the
    rendering of the list's tags. *)
Lemma apply_expression_tags_blank_tag_counterexample :
  [lit " "] <> [] /\ startswith (lit "hi") (lit "[") = false /\
  apply_expression_tags (L := posix_ascii) (lit "hi") [lit " "] = lit "hi" /\
  claimed_tag_prefix (L := posix_ascii) [lit " "] = lit "[]" /\
  startswith (apply_expression_tags (L := posix_ascii) (lit "hi") [lit " "])
    (claimed_tag_prefix (L := posix_ascii) [lit " "]) = false.
Proof.
  repeat split; try reflexivity. discriminate.
Qed.

(** ** Voice resolution *)

Lemma lstrip_blank s : forallb isspace s = true -> lstrip s = [].
Proof.
  induction s as [|x r IH]; simpl; [reflexivity|].
  destruct (isspace x); [exact IH | discriminate].
Qed.

Lemma strip_blank s : forallb isspace s = true -> strip s = [].
Proof.
  intros H. unfold strip. rewrite (lstrip_blank s H). reflexivity.
Qed.

Lemma voice_map_blank voice_id :
  forallb isspace voice_id = true -> dict_get VOICE_MAP voice_id voice_id = voice_id.
Proof.
  intros H. unfold VOICE_MAP, dict_get, str_eqb.
  repeat (case_bool_decide; [subst voice_id; discriminate H|]).
  reflexivity.
Qed.

(** C7: for a voice id that is empty or only whitespace the resolver
    returns a default token, ["af_heart"] for kokoro and ["neutral"] for
    any other model kind, and never the empty string. *)
Theorem resolve_voice_id_blank {L : PyLib} (E : Env) (voice_id model_kind : str) :
  forallb isspace voice_id = true ->
  resolve_voice_id E voice_id model_kind
  = (if str_eqb model_kind (lit "kokoro") then lit "af_heart" else lit "neutral")
  /\ resolve_voice_id E voice_id model_kind <> [].
Proof.
  intros H. unfold resolve_voice_id.
  rewrite (voice_map_blank voice_id H), (strip_blank voice_id H).
  destruct (str_eqb model_kind (lit "kokoro")); simpl negb; cbv iota.
  - change (endswith [] (lit ".safetensors")) with false. cbv iota.
    rewrite andb_false_r. simpl. split; [reflexivity | discriminate].
  - split; [reflexivity | discriminate].
Qed.

Lemma resolve_voice_id_blank_witness :
  forallb isspace (lit "  ") = true /\
  resolve_voice_id (L := posix_ascii) bare_env (lit "  ") (lit "kokoro") = lit "af_heart" /\
  resolve_voice_id (L := posix_ascii) bare_env (lit "  ") (lit "kokoro") <> [].
Proof.
  split; [reflexivity|].
  exact (resolve_voice_id_blank (L := posix_ascii) bare_env (lit "  ") (lit "kokoro") eq_refl).
Defined.

(** ** The stub generator *)

Lemma stub_raw_duration_fast text speed :
  (5 # 28 <= speed)%Q ->
  (stub_raw_duration text speed == claimed_raw_duration text speed)%Q.
Proof.
  intros H. unfold stub_raw_duration, claimed_raw_duration.
  rewrite Q.max_l; [reflexivity|].
  unfold Qle in *. simpl in *. lia.
Qed.

(** Below 5/28 the divisor [2.8 * speed] is held at 0.5. *)
Lemma stub_raw_duration_slow text speed :
  (speed <= 5 # 28)%Q ->
  (stub_raw_duration text speed == 2 * word_count text)%Q.
Proof.
  intros H. unfold stub_raw_duration.
  rewrite Q.max_r; [field|].
  unfold Qle in *. simpl in *. lia.
Qed.

(** C3, as the code has it: for every text and every speed of at least
    5/28, where [2.8 * speed] is not below the floor 0.5 of the divisor,
    the stub's duration is [clamp(word_count / (2.8 * speed), 0.35, 12.0)]
    and doubling the speed halves the raw duration. *)
Theorem stub_duration_formula (text : str) (speed : Q) :
  (5 # 28 <= speed)%Q ->
  (stub_duration text speed == claimed_stub_duration text speed)%Q /\
  (stub_raw_duration text (2 * speed) == stub_raw_duration text speed / 2)%Q.
Proof.
  intros H. split.
  - unfold stub_duration, claimed_stub_duration, clamp.
    rewrite (stub_raw_duration_fast text speed H). reflexivity.
  - assert (H2 : (5 # 28 <= 2 * speed)%Q).
    { unfold Qle in *. simpl in *. lia. }
    rewrite (stub_raw_duration_fast text speed H).
    rewrite (stub_raw_duration_fast text (2 * speed) H2).
    unfold claimed_raw_duration. field.
    intros H0. rewrite H0 in H. unfold Qle in H. simpl in H. lia.
Qed.

Lemma stub_duration_formula_witness :
  (5 # 28 <= 1)%Q /\
  (stub_duration (lit "a b c d e f g h i j") 1 == 100 # 28)%Q /\
  (stub_raw_duration (lit "a b c d e f g h i j") (2 * 1) == (100 # 28) / 2)%Q.
Proof.
  assert (H : (5 # 28 <= 1)%Q) by (unfold Qle; simpl; lia).
  split; [exact H|].
  exact (stub_duration_formula (lit "a b c d e f g h i j") 1 H).
Defined.

(** At the positive speed 1/10 the one-word text lasts 2 seconds, not
    [clamp(1 / 0.28, 0.35, 12.0)]; and doubling the speed 1/20 leaves the
    raw duration at 2. *)
Lemma stub_duration_slow_speed_counterexample :
  (0 < 1 # 10)%Q /\
  (stub_duration (lit "hi") (1 # 10) == 2)%Q /\
  (claimed_stub_duration (lit "hi") (1 # 10) == 25 # 7)%Q /\
  ~ (stub_duration (lit "hi") (1 # 10) == claimed_stub_duration (lit "hi") (1 # 10))%Q /\
  ~ (stub_raw_duration (lit "hi") (2 * (1 # 20))
     == stub_raw_duration (lit "hi") (1 # 20) / 2)%Q.
Proof.
  repeat split; try reflexivity; vm_compute; discriminate.
Qed.

(** ** The node backend *)

(** C8: once the child process has exited, the node backend raises a
    RuntimeError when the exit code is not zero, with a message built
    from stderr, else stdout, else the exit code, and when the exit code
    is zero but the output file does not exist; it returns a result only
    when the output file exists, with the engine ["kokoro-node"], which
    is not the stub's. *)
Theorem synthesize_kokoro_node_exit {L : PyLib} (E : Env) (text output_path : str)
    (speed : Q) (voice_id : str) (p : Proc) (script : str) (child : CompletedProcess) :
  resolve_kokoro_node_script_path E = Ok script ->
  node_prepare E (node_calls p) = Ok tt ->
  run_node E (node_calls p) script text (resolve_kokoro_node_voice voice_id)
    output_path speed = Ok child ->
  let err := strip (default [] (stderr child)) in
  let out := strip (default [] (stdout child)) in
  match fst (synthesize_kokoro_node E text output_path speed voice_id p) with
  | Raise e =>
      is_runtime_error e = true /\
      (returncode child =? 0)%Z && output_exists E (node_calls p) output_path = false /\
      exn_str e =
        if (returncode child =? 0)%Z
        then lit "kokoro-node synthesis completed without writing output file"
        else lit "kokoro-node synthesis failed: "
             ++ (if truthy err then err
                 else if truthy out then out
                 else lit "exit_" ++ str_of_Z (returncode child))
  | Ok r =>
      returncode child = 0%Z /\
      output_exists E (node_calls p) output_path = true /\
      wav_path r = output_path /\
      used_engine r = lit "kokoro-node" /\
      used_engine r <> lit "stub"
  end.
Proof.
  intros Hscript Hprepare Hrun err out.
  unfold synthesize_kokoro_node, bind, note_attempt, next_node, lift.
  cbn [fst snd node_calls]. rewrite Hscript, Hprepare, Hrun.
  unfold node_outcome. fold err out. cbn [fst].
  destruct (Z.eqb_spec (returncode child) 0) as [Hz|Hz]; cbn [negb].
  - destruct (output_exists E (node_calls p) output_path); cbn [negb].
    + repeat split; [exact Hz | discriminate].
    + repeat split.
  - unfold por. repeat split.
Qed.

Lemma synthesize_kokoro_node_exit_witness :
  let E := node_env 3 (lit "boom") true in
  resolve_kokoro_node_script_path E = Ok (sibling_script E) /\
  node_prepare E 0 = Ok tt /\
  run_node E 0 (sibling_script E) (lit "hi") (lit "af_heart") (lit "/tmp/o.wav") 1
  = exited 3 (lit "boom") /\
  fst (synthesize_kokoro_node (L := posix_ascii) E (lit "hi") (lit "/tmp/o.wav") 1
         (lit "kokoro_narrator") initial_proc)
  = Raise (RuntimeError (lit "kokoro-node synthesis failed: boom")).
Proof.
  intros E. repeat (split; [reflexivity|]).
  pose proof (synthesize_kokoro_node_exit (L := posix_ascii) E (lit "hi") (lit "/tmp/o.wav")
                1 (lit "kokoro_narrator") initial_proc (sibling_script E)
                {| returncode := 3; stdout := Some []; stderr := Some (lit "boom") |}
                eq_refl eq_refl eq_refl) as H.
  cbv zeta in H.
  destruct (fst (synthesize_kokoro_node (L := posix_ascii) E (lit "hi") (lit "/tmp/o.wav") 1
                   (lit "kokoro_narrator") initial_proc)) as [r|e].
  - destruct H as [H _]. discriminate H.
  - destruct H as (Hc & _ & Hm). destruct e; try discriminate Hc.
    simpl in Hm. rewrite Hm. reflexivity.
Defined.

(** ** Reasoning about computations *)

Lemma post_ret {A} (a : A) (Q : A -> Prop) P : Q a -> post (ret a) Q P.
Proof. intros H p. exact H. Qed.

Lemma post_lift {A} (r : pyresult A) (Q : A -> Prop) (P : exn -> Prop) :
  match r with Ok a => Q a | Raise e => P e end -> post (lift r) Q P.
Proof. intros H p. exact H. Qed.

Lemma post_bind {A B} (m : M A) (k : A -> M B) Q' Q P :
  post m Q' P -> (forall a, Q' a -> post (k a) Q P) -> post (bind m k) Q P.
Proof.
  intros Hm Hk p. unfold bind. specialize (Hm p).
  destruct (m p) as [[a|e] p']; cbn [fst] in *; [apply (Hk a Hm) | exact Hm].
Qed.

Lemma post_try_return {A} (m k : M A) Q P :
  post m Q anything -> post k Q P -> post (try_return m k) Q P.
Proof.
  intros Hm Hk p. unfold try_return. specialize (Hm p).
  destruct (m p) as [[a|e] p']; cbn [fst] in *; [exact Hm | apply Hk].
Qed.

Lemma post_weaken {A} (m : M A) (Q Q' : A -> Prop) (P P' : exn -> Prop) :
  post m Q P -> (forall a, Q a -> Q' a) -> (forall e, P e -> P' e) -> post m Q' P'.
Proof.
  intros Hm HQ HP p. specialize (Hm p).
  destruct (fst (m p)); [apply HQ | apply HP]; exact Hm.
Qed.

Lemma post_get_state : post get_state anything nothing.
Proof. intros p. exact I. Qed.

Lemma post_put_state s : post (put_state s) anything nothing.
Proof. intros p. exact I. Qed.

Lemma post_note_attempt b : post (note_attempt b) anything nothing.
Proof. intros p. exact I. Qed.

Lemma preserves_ret {A X} (f : Proc -> X) (a : A) : preserves f (ret a).
Proof. intros p. reflexivity. Qed.

Lemma preserves_raise {A X} (f : Proc -> X) e : preserves f (@raise A e).
Proof. intros p. reflexivity. Qed.

Lemma preserves_lift {A X} (f : Proc -> X) (r : pyresult A) : preserves f (lift r).
Proof. intros p. reflexivity. Qed.

Lemma preserves_get_state {X} (f : Proc -> X) : preserves f get_state.
Proof. intros p. reflexivity. Qed.

Lemma preserves_bind {A B X} (f : Proc -> X) (m : M A) (k : A -> M B) :
  preserves f m -> (forall a, preserves f (k a)) -> preserves f (bind m k).
Proof.
  intros Hm Hk p. unfold bind. specialize (Hm p).
  destruct (m p) as [[a|e] p']; cbn [snd] in *; [rewrite Hk|]; exact Hm.
Qed.

Lemma preserves_try_return {A X} (f : Proc -> X) (m k : M A) :
  preserves f m -> preserves f k -> preserves f (try_return m k).
Proof.
  intros Hm Hk p. unfold try_return. specialize (Hm p).
  destruct (m p) as [[a|e] p']; cbn [snd] in *; [|rewrite Hk]; exact Hm.
Qed.

Lemma put_state_ghost s :
  preserves load_calls (put_state s) /\ preserves node_calls (put_state s)
  /\ preserves attempts (put_state s).
Proof. repeat split. Qed.

Lemma note_attempt_frame b :
  preserves STATE (note_attempt b) /\ preserves load_calls (note_attempt b)
  /\ preserves node_calls (note_attempt b).
Proof. repeat split. Qed.

Lemma next_load_frame :
  preserves STATE next_load /\ preserves node_calls next_load
  /\ preserves attempts next_load.
Proof. repeat split. Qed.

Lemma next_node_frame :
  preserves STATE next_node /\ preserves load_calls next_node
  /\ preserves attempts next_node.
Proof. repeat split. Qed.

Create HintDb frame discriminated.

#[local] Hint Resolve preserves_ret preserves_raise preserves_lift preserves_get_state
  preserves_bind preserves_try_return : frame.
#[local] Hint Extern 1 (preserves load_calls (put_state _)) => apply put_state_ghost : frame.
#[local] Hint Extern 1 (preserves node_calls (put_state _)) => apply put_state_ghost : frame.
#[local] Hint Extern 1 (preserves attempts (put_state _)) => apply put_state_ghost : frame.
#[local] Hint Extern 1 (preserves STATE (note_attempt _)) => apply note_attempt_frame : frame.
#[local] Hint Extern 1 (preserves load_calls (note_attempt _)) => apply note_attempt_frame : frame.
#[local] Hint Extern 1 (preserves node_calls (note_attempt _)) => apply note_attempt_frame : frame.
#[local] Hint Extern 1 (preserves STATE next_load) => apply next_load_frame : frame.
#[local] Hint Extern 1 (preserves node_calls next_load) => apply next_load_frame : frame.
#[local] Hint Extern 1 (preserves attempts next_load) => apply next_load_frame : frame.
#[local] Hint Extern 1 (preserves STATE next_node) => apply next_node_frame : frame.
#[local] Hint Extern 1 (preserves load_calls next_node) => apply next_node_frame : frame.
#[local] Hint Extern 1 (preserves attempts next_node) => apply next_node_frame : frame.

(** Case analysis on what a computation branches on, then the frame
    lemmas. *)
Ltac frame :=
  repeat match goal with
         | |- preserves _ (match ?x with _ => _ end) => destruct x
         | |- preserves _ (bind _ _) => apply preserves_bind; [|intros ?]
         | |- preserves _ (try_return _ _) => apply preserves_try_return
         end;
  auto with frame.

Section Orchestrator.

Context {L : PyLib}.

Lemma probe_mlx_runtime_ghost E :
  preserves load_calls (probe_mlx_runtime E) /\ preserves node_calls (probe_mlx_runtime E)
  /\ preserves attempts (probe_mlx_runtime E).
Proof. unfold probe_mlx_runtime. repeat split; frame. Qed.

Lemma mlx_runtime_available_ghost E :
  preserves load_calls (mlx_runtime_available E)
  /\ preserves node_calls (mlx_runtime_available E)
  /\ preserves attempts (mlx_runtime_available E).
Proof.
  pose proof (probe_mlx_runtime_ghost E) as (? & ? & ?).
  unfold mlx_runtime_available. repeat split; frame.
Qed.

Lemma get_mlx_loader_ghost E :
  preserves load_calls (get_mlx_loader E) /\ preserves node_calls (get_mlx_loader E)
  /\ preserves attempts (get_mlx_loader E).
Proof.
  pose proof (mlx_runtime_available_ghost E) as (? & ? & ?).
  unfold get_mlx_loader. repeat split; frame.
Qed.

Lemma get_or_load_model_ghost E model_kind :
  preserves node_calls (get_or_load_model E model_kind)
  /\ preserves attempts (get_or_load_model E model_kind).
Proof.
  pose proof (get_mlx_loader_ghost E) as (? & ? & ?).
  unfold get_or_load_model. repeat split; frame.
Qed.

Lemma synthesize_kokoro_node_state E text output_path speed voice_id :
  preserves STATE (synthesize_kokoro_node E text output_path speed voice_id)
  /\ preserves load_calls (synthesize_kokoro_node E text output_path speed voice_id).
Proof. unfold synthesize_kokoro_node. repeat split; frame. Qed.

Lemma synthesize_stub_state E text output_path speed model :
  preserves STATE (synthesize_stub E text output_path speed model)
  /\ preserves load_calls (synthesize_stub E text output_path speed model)
  /\ preserves node_calls (synthesize_stub E text output_path speed model).
Proof. unfold synthesize_stub. repeat split; frame. Qed.

(** ** What the backends return and raise *)

Lemma post_probe_mlx_runtime E : post (probe_mlx_runtime E) anything nothing.
Proof.
  unfold probe_mlx_runtime. apply (post_bind _ _ anything); [apply post_get_state|].
  intros s _. destruct (mlx_probe_attempted s); [apply post_ret; exact I|].
  destruct (run_probe E) as [result|error]; [|apply post_put_state].
  destruct (negb (returncode result =? 0)%Z); apply post_put_state.
Qed.

(** The capability check never raises. *)
Lemma post_mlx_runtime_available E : post (mlx_runtime_available E) anything nothing.
Proof.
  unfold mlx_runtime_available.
  destruct (negb (mlx_runtime_enabled E)); [apply post_ret; exact I|].
  apply (post_bind _ _ anything); [apply post_get_state|]. intros s _.
  apply (post_bind _ _ anything).
  - destruct (negb (mlx_probe_attempted s));
      [apply post_probe_mlx_runtime | apply post_ret; exact I].
  - intros _ _. apply (post_bind _ _ anything); [apply post_get_state|].
    intros s' _. apply post_ret. exact I.
Qed.

Lemma post_synthesize_stub E text output_path speed model :
  post (synthesize_stub E text output_path speed model)
    (fun r => wav_path r = output_path /\ used_engine r = lit "stub")
    (fun e => write_stub E output_path (stub_total_samples text speed)
                (stub_frequency model) = Raise e).
Proof.
  unfold synthesize_stub. apply (post_bind _ _ anything).
  - eapply post_weaken; [apply post_note_attempt | intros; exact I | intros e []].
  - intros _ _. apply (post_bind _ _ anything).
    + apply post_lift. fold (stub_total_samples text speed).
      destruct (write_stub E output_path (stub_total_samples text speed)
                  (stub_frequency model)); [exact I | reflexivity].
    + intros _ _. apply post_ret. split; reflexivity.
Qed.

Lemma post_synthesize_kokoro_node E text output_path speed voice_id :
  post (synthesize_kokoro_node E text output_path speed voice_id)
    (fun r => wav_path r = output_path /\ used_engine r = lit "kokoro-node")
    anything.
Proof.
  intros p. destruct (fst (synthesize_kokoro_node E text output_path speed voice_id p))
    as [r|e] eqn:Hr; [|exact I].
  revert Hr. unfold synthesize_kokoro_node, bind, note_attempt, next_node, lift.
  cbn [fst snd node_calls].
  destruct (resolve_kokoro_node_script_path E) as [script|]; cbn [fst snd];
    [|discriminate].
  destruct (node_prepare E (node_calls p)); cbn [fst snd]; [|discriminate].
  destruct (run_node E (node_calls p) script text (resolve_kokoro_node_voice voice_id)
              output_path speed) as [child|]; cbn [fst snd]; [|discriminate].
  unfold node_outcome.
  destruct (negb (returncode child =? 0)%Z); [discriminate|].
  destruct (negb (output_exists E (node_calls p) output_path)); [discriminate|].
  intros [= <-]. split; reflexivity.
Qed.

(** C1: [synthesize] returns a result for the requested output path,
    made by one of the three engines, whatever the mlx and the node
    backend raise; the only exception that reaches the caller is one
    raised while the stub writes its file. *)
Theorem synthesize_never_propagates (E : Env) (text output_path : str) (speed : Q)
    (model voice_id : str) (expression_tags : list str) (p : Proc) :
  match fst (synthesize E text output_path speed model voice_id expression_tags p) with
  | Ok r =>
      wav_path r = output_path /\
      (used_engine r = lit "kokoro-node" \/ used_engine r = lit "mlx-audio"
       \/ used_engine r = lit "stub")
  | Raise e =>
      write_stub E output_path
        (stub_total_samples (normalize_for_speech text) speed) (stub_frequency model)
      = Raise e
  end.
Proof.
  revert p. change (post (synthesize E text output_path speed model voice_id expression_tags)
                      (fun r => wav_path r = output_path /\
                                (used_engine r = lit "kokoro-node"
                                 \/ used_engine r = lit "mlx-audio"
                                 \/ used_engine r = lit "stub"))
                      (fun e => write_stub E output_path
                                  (stub_total_samples (normalize_for_speech text) speed)
                                  (stub_frequency model) = Raise e)).
  unfold synthesize.
  set (node := synthesize_kokoro_node E _ output_path speed voice_id).
  set (stub := bind (synthesize_stub E _ output_path speed model) _).
  set (Q := fun r : SynthResult => _).
  set (P := fun e : exn => _).
  assert (Hnode : post node Q anything).
  { eapply post_weaken; [apply post_synthesize_kokoro_node | | intros; exact I].
    intros r [Hw He]. split; [exact Hw | left; exact He]. }
  assert (Hstub : post stub Q P).
  { apply (post_bind _ _ anything).
    - eapply post_weaken;
        [apply post_synthesize_stub | intros; exact I | intros e He; exact He].
    - intros _ _. apply post_ret. split; [reflexivity | right; right; reflexivity]. }
  assert (Hafter : post (if should_try_node_after_python E model
                         then try_return node stub else stub) Q P).
  { destruct (should_try_node_after_python E model);
      [apply post_try_return|]; assumption. }
  assert (Hpython :
    post (bind (mlx_runtime_available E)
            (fun available =>
               if negb available
               then if should_try_node_after_python E model
                    then try_return node stub else stub
               else try_return
                      (bind (synthesize_mlx E (apply_expression_tags
                                                 (normalize_for_speech text) expression_tags)
                               output_path speed model voice_id [])
                            (fun _ => ret {| wav_path := output_path;
                                             used_engine := lit "mlx-audio" |}))
                      (if should_try_node_after_python E model
                       then try_return node stub else stub))) Q P).
  { apply (post_bind _ _ anything).
    - eapply post_weaken;
        [apply post_mlx_runtime_available | intros; exact I | intros e []].
    - intros available _. destruct (negb available); [exact Hafter|].
      apply post_try_return; [|exact Hafter].
      apply (post_bind _ _ anything).
      + intros q. destruct (fst _); exact I.
      + intros _ _. apply post_ret. split; [reflexivity | right; left; reflexivity]. }
  destruct (should_try_node_before_python E model);
    [apply post_try_return|]; assumption.
Qed.

(** ** The chain of attempts *)

Lemma attempts_after_note {A} b (k : unit -> M A) p :
  preserves attempts (k tt) ->
  attempts (snd (bind (note_attempt b) k p)) = attempts p ++ [b].
Proof.
  intros Hk. unfold bind, note_attempt. cbn [fst snd]. rewrite Hk. reflexivity.
Qed.

Lemma snd_bind_ret {A B} (m : M A) (b : B) p :
  snd (bind m (fun _ => ret b) p) = snd (m p).
Proof.
  unfold bind, ret. destruct (m p) as [[a|e] p']; reflexivity.
Qed.

Lemma synthesize_stub_attempts E text output_path speed model p :
  attempts (snd (synthesize_stub E text output_path speed model p)) = attempts p ++ [Stub].
Proof.
  unfold synthesize_stub. apply attempts_after_note. frame.
Qed.

Lemma synthesize_mlx_attempts E text output_path speed model voice_id expression_tags p :
  attempts (snd (synthesize_mlx E text output_path speed model voice_id expression_tags p))
  = attempts p ++ [Mlx]
  /\ node_calls (snd (synthesize_mlx E text output_path speed model voice_id
                        expression_tags p)) = node_calls p.
Proof.
  pose proof (get_or_load_model_ghost E model) as [Hn Ha].
  unfold synthesize_mlx. split.
  - apply attempts_after_note. frame.
  - assert (H : preserves node_calls
                  (synthesize_mlx E text output_path speed model voice_id expression_tags))
      by (unfold synthesize_mlx; frame).
    apply H.
Qed.

Lemma should_try_node_other_model E model :
  model <> lit "kokoro" ->
  should_try_node_before_python E model = false
  /\ should_try_node_after_python E model = false.
Proof.
  intros H. unfold should_try_node_before_python, should_try_node_after_python, str_eqb.
  rewrite bool_decide_eq_false_2 by exact H. split; reflexivity.
Qed.

(** C10: for a model kind other than ["kokoro"], whatever the
    environment and so the backend mode, [synthesize] never calls the
    node backend: the backends it attempts are the stub alone (mlx
    unavailable), mlx alone, or mlx and then the stub. *)
Theorem synthesize_other_model_chain (E : Env) (text output_path : str) (speed : Q)
    (model voice_id : str) (expression_tags : list str) (p : Proc) :
  model <> lit "kokoro" ->
  let p' := snd (synthesize E text output_path speed model voice_id expression_tags p) in
  node_calls p' = node_calls p /\
  exists chain,
    attempts p' = attempts p ++ chain /\
    ~ In Node chain /\
    (chain = [Stub] \/ chain = [Mlx] \/ chain = [Mlx; Stub]).
Proof.
  intros Hmodel. destruct (should_try_node_other_model E model Hmodel) as [Hb Ha].
  cbv zeta.
  remember (snd (synthesize E text output_path speed model voice_id expression_tags p))
    as p' eqn:Hp'.
  unfold synthesize in Hp'. rewrite Hb, Ha in Hp'. cbv zeta in Hp'.
  destruct (mlx_runtime_available_ghost E) as (_ & Hn & Hat).
  specialize (Hn p). specialize (Hat p).
  pose proof (post_mlx_runtime_available E p) as Hok.
  unfold bind at 1 in Hp'.
  destruct (mlx_runtime_available E p) as [[available|e] p1]; cbn [fst snd] in *;
    [|destruct Hok].
  destruct (synthesize_stub_state E (normalize_for_speech text) output_path speed model)
    as (_ & _ & Hsn).
  destruct available; cbn [negb] in Hp'.
  - unfold try_return in Hp'.
    destruct (synthesize_mlx_attempts E
                (apply_expression_tags (normalize_for_speech text) expression_tags)
                output_path speed model voice_id [] p1) as [Hma Hmn].
    rewrite <- (snd_bind_ret _ {| wav_path := output_path;
                                  used_engine := lit "mlx-audio" |}) in Hma, Hmn.
    destruct (bind (synthesize_mlx E _ output_path speed model voice_id []) _ p1)
      as [[r|e] p2]; cbn [fst snd] in *; subst p'.
    + split; [congruence|]. exists [Mlx]. rewrite Hma, Hat.
      split; [reflexivity|]. split; [|auto]. intros [H|[]]. discriminate H.
    + rewrite snd_bind_ret, Hsn, synthesize_stub_attempts, Hma, Hat, Hmn, Hn.
      split; [reflexivity|]. exists [Mlx; Stub]. rewrite <- app_assoc.
      split; [reflexivity|]. split; [|auto]. intros [H|[H|[]]]; discriminate H.
  - subst p'. rewrite snd_bind_ret, Hsn, synthesize_stub_attempts, Hat, Hn.
    split; [reflexivity|]. exists [Stub].
    split; [reflexivity|]. split; [|auto]. intros [H|[]]. discriminate H.
Qed.

End Orchestrator.

Lemma synthesize_other_model_chain_witness :
  lit "chatterbox" <> lit "kokoro" /\
  let p' := snd (synthesize (L := posix_ascii) mlx_env (lit "hi") (lit "/tmp/o.wav") 1
                   (lit "chatterbox") (lit "chatterbox_studio") [] initial_proc) in
  node_calls p' = 0 /\
  exists chain,
    attempts p' = [] ++ chain /\
    ~ In Node chain /\
    (chain = [Stub] \/ chain = [Mlx] \/ chain = [Mlx; Stub]).
Proof.
  assert (H : lit "chatterbox" <> lit "kokoro") by discriminate.
  split; [exact H|].
  exact (synthesize_other_model_chain (L := posix_ascii) mlx_env (lit "hi") (lit "/tmp/o.wav")
           1 (lit "chatterbox") (lit "chatterbox_studio") [] initial_proc H).
Defined.

(** ** The model cache *)

Section Cache.

Context {L : PyLib}.

Lemma mlx_runtime_available_attempted E p :
  mlx_probe_attempted (STATE p) = true ->
  mlx_runtime_available E p
  = (Ok (mlx_runtime_enabled E && mlx_probe_available (STATE p)), p).
Proof.
  intros H. unfold mlx_runtime_available.
  destruct (mlx_runtime_enabled E); cbn [negb andb]; [|reflexivity].
  unfold bind, get_state, ret. cbn [fst snd]. rewrite H. reflexivity.
Qed.

Lemma probe_mlx_runtime_fresh E p :
  let s := STATE (snd (probe_mlx_runtime E p)) in
  mlx_probe_attempted s = true
  /\ model_cache s = model_cache (STATE p)
  /\ mlx_load_model s = mlx_load_model (STATE p).
Proof.
  unfold probe_mlx_runtime, bind, get_state, put_state, ret. cbn [fst snd].
  destruct (mlx_probe_attempted (STATE p)) eqn:Ha; [auto|].
  destruct (run_probe E) as [result|error]; [|repeat split].
  destruct (negb (returncode result =? 0)%Z); repeat split.
Qed.

(** When the capability check says yes, the probe has been attempted
    and found the runtime; the cache and the loader are as before. *)
Lemma mlx_runtime_available_true E p q :
  mlx_runtime_available E p = (Ok true, q) ->
  mlx_runtime_enabled E = true
  /\ mlx_probe_attempted (STATE q) = true
  /\ mlx_probe_available (STATE q) = true
  /\ model_cache (STATE q) = model_cache (STATE p)
  /\ mlx_load_model (STATE q) = mlx_load_model (STATE p)
  /\ load_calls q = load_calls p.
Proof.
  intros H. destruct (mlx_runtime_available_ghost E) as (Hl & _ & _).
  specialize (Hl p). rewrite H in Hl. cbn [snd] in Hl. revert H.
  unfold mlx_runtime_available.
  destruct (mlx_runtime_enabled E); cbn [negb]; [|discriminate].
  unfold bind at 1, get_state at 1. cbn [fst snd].
  destruct (mlx_probe_attempted (STATE p)) eqn:Ha; cbn [negb].
  - unfold bind, get_state, ret. cbn [fst snd]. intros [= Hv <-]. repeat split; auto.
  - pose proof (probe_mlx_runtime_fresh E p) as (Hat & Hc & Hm).
    pose proof (post_probe_mlx_runtime E p) as Hok.
    unfold bind at 1. destruct (probe_mlx_runtime E p) as [[[]|e] p1];
      cbn [fst snd] in *; [|destruct Hok].
    unfold bind, get_state, ret. cbn [fst snd]. intros [= Hv <-]. repeat split; auto.
Qed.

Lemma get_mlx_loader_some E p load_model q :
  get_mlx_loader E p = (Ok (Some load_model), q) ->
  mlx_runtime_enabled E = true
  /\ mlx_probe_attempted (STATE q) = true
  /\ mlx_probe_available (STATE q) = true
  /\ mlx_load_model (STATE q) = Some load_model
  /\ model_cache (STATE q) = model_cache (STATE p)
  /\ load_calls q = load_calls p.
Proof.
  unfold get_mlx_loader. unfold bind at 1.
  destruct (mlx_runtime_available E p) as [[available|e] p1] eqn:Hav; [|discriminate].
  destruct available; cbn [negb]; [|discriminate].
  apply mlx_runtime_available_true in Hav as (He & Hat & Hv & Hc & Hm & Hl).
  unfold bind at 1, get_state at 1. cbn [fst snd].
  destruct (mlx_load_model (STATE p1)) as [l|] eqn:Hl1.
  - intros [= <- <-]. auto 10.
  - destruct (import_loader E) as [dynamic_loader|error]; [|discriminate].
    unfold bind, put_state, ret. cbn [fst snd]. intros [= <- <-]. cbn. auto 10.
Qed.

Lemma get_mlx_loader_hit E p load_model :
  mlx_runtime_enabled E = true ->
  mlx_probe_attempted (STATE p) = true ->
  mlx_probe_available (STATE p) = true ->
  mlx_load_model (STATE p) = Some load_model ->
  get_mlx_loader E p = (Ok (Some load_model), p).
Proof.
  intros He Hat Hv Hm. unfold get_mlx_loader. unfold bind at 1.
  rewrite (mlx_runtime_available_attempted E p Hat), He, Hv.
  cbn [andb negb]. unfold bind, get_state, ret. cbn [fst snd].
  rewrite Hm. reflexivity.
Qed.

(** A process that has the runtime, the loader and a cached model for
    [model_kind] answers from the cache and stays as it is. *)
Lemma get_or_load_model_hit E model_kind p load_model cached :
  mlx_runtime_enabled E = true ->
  mlx_probe_attempted (STATE p) = true ->
  mlx_probe_available (STATE p) = true ->
  mlx_load_model (STATE p) = Some load_model ->
  model_cache (STATE p) !! model_kind = Some cached ->
  get_or_load_model E model_kind p = (Ok cached, p).
Proof.
  intros He Hat Hv Hm Hc. unfold get_or_load_model. unfold bind at 1.
  rewrite (get_mlx_loader_hit E p load_model He Hat Hv Hm).
  unfold bind, get_state, ret. cbn [fst snd]. rewrite Hc. reflexivity.
Qed.

(** What a call that returns leaves behind. *)
Lemma get_or_load_model_returns E model_kind p model_instance p1 :
  get_or_load_model E model_kind p = (Ok model_instance, p1) ->
  mlx_runtime_enabled E = true
  /\ mlx_probe_attempted (STATE p1) = true
  /\ mlx_probe_available (STATE p1) = true
  /\ (exists load_model, mlx_load_model (STATE p1) = Some load_model)
  /\ model_cache (STATE p1) !! model_kind = Some model_instance
  /\ load_calls p1
     = load_calls p + match model_cache (STATE p) !! model_kind with
                      | Some _ => 0
                      | None => 1
                      end.
Proof.
  unfold get_or_load_model. unfold bind at 1.
  destruct (get_mlx_loader E p) as [[[load_model|]|e] q] eqn:Hq; try discriminate.
  apply get_mlx_loader_some in Hq as (He & Hat & Hv & Hm & Hc & Hl).
  unfold bind at 1, get_state at 1. cbn [fst snd]. rewrite <- Hc, <- Hl.
  destruct (model_cache (STATE q) !! model_kind) as [cached|] eqn:Hk.
  - intros [= <- <-]. rewrite Hk. repeat split; eauto; lia.
  - unfold bind, lift, next_load, get_state, put_state, ret. cbn [fst snd].
    destruct (resolve_model_source E model_kind) as [source|]; [|discriminate].
    cbn [fst snd load_calls].
    destruct (call_loader E load_model (load_calls q) source) as [h|]; [|discriminate].
    cbn [fst snd]. intros [= <- <-]. cbn.
    repeat split; eauto; [apply lookup_insert_eq | lia].
Qed.

(** Where the returned handle comes from: the cache on a hit; on a miss
    the loader, called on the resolved source, whose handle and source
    are then stored. *)
Lemma get_or_load_model_origin E model_kind p model_instance p1 :
  get_or_load_model E model_kind p = (Ok model_instance, p1) ->
  match model_cache (STATE p) !! model_kind with
  | Some cached => model_instance = cached
  | None =>
      exists load_model source,
        mlx_load_model (STATE p1) = Some load_model
        /\ resolve_model_source E model_kind = Ok source
        /\ call_loader E load_model (load_calls p) source = Ok model_instance
        /\ model_source (STATE p1) !! model_kind = Some source
  end.
Proof.
  unfold get_or_load_model. unfold bind at 1.
  destruct (get_mlx_loader E p) as [[[load_model|]|e] q] eqn:Hq; try discriminate.
  apply get_mlx_loader_some in Hq as (He & Hat & Hv & Hm & Hc & Hl).
  unfold bind at 1, get_state at 1. cbn [fst snd]. rewrite <- Hc, <- Hl.
  destruct (model_cache (STATE q) !! model_kind) as [cached|] eqn:Hk.
  - intros [= <- <-]. reflexivity.
  - unfold bind, lift, next_load, get_state, put_state, ret. cbn [fst snd].
    destruct (resolve_model_source E model_kind) as [source|]; [|discriminate].
    cbn [fst snd load_calls].
    destruct (call_loader E load_model (load_calls q) source) as [h|] eqn:Hcall;
      [|discriminate].
    cbn [fst snd]. intros [= <- <-]. exists load_model, source. cbn.
    repeat split; [exact Hm | exact Hcall | apply lookup_insert_eq].
Qed.

(** C5: when a call of [get_or_load_model] returns a handle, the next
    call for the same model kind returns the same handle and leaves the
    process as it is, so that the loader is not called again.  The first
    call invokes the loader exactly once if the model was not cached: the
    handle it returns is the one the loader gave for the resolved source,
    at that one invocation, and is stored with its source; if the model
    was cached, the handle is the cached one and the loader is not
    invoked at all. *)
Theorem get_or_load_model_cached (E : Env) (model_kind : str) (p : Proc)
    (model_instance : handle) (p1 : Proc) :
  get_or_load_model E model_kind p = (Ok model_instance, p1) ->
  get_or_load_model E model_kind p1 = (Ok model_instance, p1)
  /\ load_calls p1
     = load_calls p + match model_cache (STATE p) !! model_kind with
                      | Some _ => 0
                      | None => 1
                      end
  /\ match model_cache (STATE p) !! model_kind with
     | Some cached => model_instance = cached
     | None =>
         exists load_model source,
           mlx_load_model (STATE p1) = Some load_model
           /\ resolve_model_source E model_kind = Ok source
           /\ call_loader E load_model (load_calls p) source = Ok model_instance
           /\ model_source (STATE p1) !! model_kind = Some source
     end.
Proof.
  intros H. pose proof (get_or_load_model_origin E model_kind p model_instance p1 H) as Ho.
  apply get_or_load_model_returns in H as (He & Hat & Hv & [l Hm] & Hc & Hl).
  split; [|split; [exact Hl | exact Ho]].
  exact (get_or_load_model_hit E model_kind p1 l model_instance He Hat Hv Hm Hc).
Qed.

End Cache.

Lemma get_or_load_model_cached_witness :
  let first := get_or_load_model (L := posix_ascii) mlx_env (lit "kokoro") initial_proc in
  first = (Ok 0%N, snd first) /\
  get_or_load_model (L := posix_ascii) mlx_env (lit "kokoro") (snd first)
  = (Ok 0%N, snd first) /\
  load_calls (snd first) = 1 /\
  exists load_model source,
    mlx_load_model (STATE (snd first)) = Some load_model
    /\ resolve_model_source (L := posix_ascii) mlx_env (lit "kokoro") = Ok source
    /\ call_loader mlx_env load_model 0 source = Ok 0%N
    /\ model_source (STATE (snd first)) !! lit "kokoro" = Some source.
Proof.
  intros first.
  assert (H : first = (Ok 0%N, snd first)) by (vm_compute; reflexivity).
  split; [exact H|].
  exact (get_or_load_model_cached (L := posix_ascii) mlx_env (lit "kokoro") initial_proc
           0%N (snd first) H).
Defined.

(** ** The probe fields *)

Lemma probe_step_refl E s : mlx_probe_attempted s = true -> probe_step E s s.
Proof. intros H. split; [exact H|]. left. split; reflexivity. Qed.

Lemma probe_step_trans E s1 s2 s3 :
  probe_step E s1 s2 -> probe_step E s2 s3 -> probe_step E s1 s3.
Proof.
  intros [_ H12] [Hat H23]. split; [exact Hat|].
  destruct H12 as [[Hv He]|(Hv & Hv' & Herr)], H23 as [[Hw Hf]|(Hw & Hw' & Hferr)].
  - left. split; congruence.
  - right. split; [congruence|]. split; assumption.
  - right. split; [assumption|]. split; [congruence|].
    destruct Herr as (error & Hi & Herr). exists error. split; congruence.
  - congruence.
Qed.

Lemma settled_preserves {A} E (m : M A) : preserves STATE m -> settled E m.
Proof. intros H p Hat. rewrite H. apply probe_step_refl, Hat. Qed.

Lemma settled_bind {A B} E (m : M A) (k : A -> M B) :
  settled E m -> (forall a, settled E (k a)) -> settled E (bind m k).
Proof.
  intros Hm Hk p Hat. unfold bind. specialize (Hm p Hat).
  destruct (m p) as [[a|e] p']; cbn [snd] in *; [|exact Hm].
  apply (probe_step_trans E _ (STATE p')); [exact Hm|].
  apply Hk. apply Hm.
Qed.

Lemma settled_try_return {A} E (m k : M A) :
  settled E m -> settled E k -> settled E (try_return m k).
Proof.
  intros Hm Hk p Hat. unfold try_return. specialize (Hm p Hat).
  destruct (m p) as [[a|e] p']; cbn [snd] in *; [exact Hm|].
  apply (probe_step_trans E _ (STATE p')); [exact Hm|].
  apply Hk. apply Hm.
Qed.

Section Probe.

Context {L : PyLib}.

Lemma probe_mlx_runtime_attempted E p :
  mlx_probe_attempted (STATE p) = true -> probe_mlx_runtime E p = (Ok tt, p).
Proof.
  intros H. unfold probe_mlx_runtime, bind, get_state, ret. cbn [fst snd].
  rewrite H. reflexivity.
Qed.

Lemma settled_mlx_runtime_available E : settled E (mlx_runtime_available E).
Proof.
  intros p Hat. rewrite (mlx_runtime_available_attempted E p Hat).
  apply probe_step_refl, Hat.
Qed.

(** The one place that writes the probe fields after the probe. *)
Lemma settled_get_mlx_loader E : settled E (get_mlx_loader E).
Proof.
  intros p Hat. unfold get_mlx_loader. unfold bind at 1.
  rewrite (mlx_runtime_available_attempted E p Hat). cbn [fst snd].
  destruct (mlx_runtime_enabled E && mlx_probe_available (STATE p)) eqn:Hv;
    cbn [negb]; [|apply probe_step_refl, Hat].
  apply andb_true_iff in Hv as [_ Hv].
  unfold bind, get_state, put_state, ret. cbn [fst snd].
  destruct (mlx_load_model (STATE p)); [apply probe_step_refl, Hat|].
  destruct (import_loader E) as [dynamic_loader|error] eqn:Hi; cbn [fst snd STATE].
  - split; [exact Hat|]. left. split; reflexivity.
  - split; [exact Hat|]. right. split; [exact Hv|]. split; [reflexivity|].
    exists error. split; [exact Hi | reflexivity].
Qed.

Lemma settled_get_or_load_model E model_kind : settled E (get_or_load_model E model_kind).
Proof.
  unfold get_or_load_model. apply settled_bind; [apply settled_get_mlx_loader|].
  intros [load_model|]; [|apply settled_preserves; frame].
  intros p Hat. unfold bind, get_state, put_state, lift, next_load, ret. cbn [fst snd].
  destruct (model_cache (STATE p) !! model_kind); [apply probe_step_refl, Hat|].
  destruct (resolve_model_source E model_kind) as [source|]; cbn [fst snd STATE];
    [|apply probe_step_refl, Hat].
  destruct (call_loader E load_model (load_calls p) source); cbn [fst snd STATE];
    [|apply probe_step_refl, Hat].
  split; [exact Hat|]. left. split; reflexivity.
Qed.

Lemma settled_synthesize_mlx E text output_path speed model voice_id expression_tags :
  settled E (synthesize_mlx E text output_path speed model voice_id expression_tags).
Proof.
  unfold synthesize_mlx.
  apply settled_bind; [apply settled_preserves; frame|]. intros _.
  apply settled_bind; [apply settled_get_or_load_model|]. intros model_instance.
  apply settled_preserves. frame.
Qed.

Lemma settled_synthesize E text output_path speed model voice_id expression_tags :
  settled E (synthesize E text output_path speed model voice_id expression_tags).
Proof.
  unfold synthesize.
  set (node := synthesize_kokoro_node E _ output_path speed voice_id).
  set (stub := bind (synthesize_stub E _ output_path speed model) _).
  assert (Hnode : settled E node).
  { apply settled_preserves, synthesize_kokoro_node_state. }
  assert (Hstub : settled E stub).
  { apply settled_preserves. unfold stub.
    destruct (synthesize_stub_state E (normalize_for_speech text) output_path speed model)
      as (? & _). frame. }
  assert (Hafter : settled E (if should_try_node_after_python E model
                              then try_return node stub else stub)).
  { destruct (should_try_node_after_python E model);
      [apply settled_try_return|]; assumption. }
  assert (Hpython :
    settled E
      (bind (mlx_runtime_available E)
         (fun available =>
            if negb available
            then if should_try_node_after_python E model
                 then try_return node stub else stub
            else try_return
                   (bind (synthesize_mlx E (apply_expression_tags
                                              (normalize_for_speech text) expression_tags)
                            output_path speed model voice_id [])
                         (fun _ => ret {| wav_path := output_path;
                                          used_engine := lit "mlx-audio" |}))
                   (if should_try_node_after_python E model
                    then try_return node stub else stub)))).
  { apply settled_bind; [apply settled_mlx_runtime_available|].
    intros available. destruct (negb available); [exact Hafter|].
    apply settled_try_return; [|exact Hafter].
    apply settled_bind; [apply settled_synthesize_mlx|].
    intros _. apply settled_preserves. frame. }
  destruct (should_try_node_before_python E model);
    [apply settled_try_return|]; assumption.
Qed.

Lemma run_op_settled E o p :
  mlx_probe_attempted (STATE p) = true ->
  probe_step E (STATE p) (STATE (run_op E o p)).
Proof.
  intros Hat. destruct o; cbn [run_op].
  - rewrite (probe_mlx_runtime_attempted E p Hat). apply probe_step_refl, Hat.
  - apply settled_mlx_runtime_available, Hat.
  - apply settled_get_mlx_loader, Hat.
  - apply settled_get_or_load_model, Hat.
  - apply settled_synthesize_mlx, Hat.
  - apply settled_preserves; [apply synthesize_kokoro_node_state | exact Hat].
  - apply settled_preserves; [apply synthesize_stub_state | exact Hat].
  - apply settled_synthesize, Hat.
Qed.

Lemma run_op_state_kept E o p :
  mlx_probe_attempted (STATE p) = true -> reaches_loader o = false ->
  STATE (run_op E o p) = STATE p.
Proof.
  intros Hat. destruct o; cbn [run_op reaches_loader]; try discriminate; intros _.
  - rewrite (probe_mlx_runtime_attempted E p Hat). reflexivity.
  - rewrite (mlx_runtime_available_attempted E p Hat). reflexivity.
  - apply synthesize_kokoro_node_state.
  - apply synthesize_stub_state.
Qed.

(** Along a whole run: the probe stays attempted; while
    [mlx_probe_available] is true at the end, or once it is false, the
    two fields are those of the start. *)
Lemma probe_fields_along_run l p :
  mlx_probe_attempted (STATE p) = true ->
  mlx_probe_attempted (STATE (run_ops l p)) = true
  /\ (mlx_probe_available (STATE (run_ops l p)) = true
      \/ mlx_probe_available (STATE p) = false ->
      probe_fields_kept (STATE p) (STATE (run_ops l p))).
Proof.
  revert p. induction l as [|[E o] l IH]; intros p Hat.
  - split; [exact Hat|]. intros _. split; reflexivity.
  - unfold run_ops. cbn [fold_left fst snd]. fold (run_ops l (run_op E o p)).
    destruct (run_op_settled E o p Hat) as [Hat1 Hstep].
    destruct (IH (run_op E o p) Hat1) as [Hend Hkept].
    split; [exact Hend|]. intros Hv.
    destruct Hstep as [[Hv1 He1]|(Hv0 & Hv1 & _)].
    + destruct Hkept as [Hv2 He2]; [destruct Hv; [left | right]; congruence|].
      split; congruence.
    + destruct (Hkept (or_intror Hv1)) as [Hv2 _].
      destruct Hv; congruence.
Qed.

(** C2, as the code has it: once the probe has been attempted it stays
    attempted, and [mlx_probe_available] and [mlx_probe_error] are
    modified by no operation except through [get_mlx_loader], when the
    probe had found the runtime and the import inside the process
    fails: then [mlx_probe_available] becomes false and
    [mlx_probe_error] the message of the import error. *)
Theorem probe_fields_after_attempt (E : Env) (o : op) (p : Proc) :
  mlx_probe_attempted (STATE p) = true ->
  let s := STATE p in
  let s' := STATE (run_op E o p) in
  mlx_probe_attempted s' = true
  /\ (probe_fields_kept s s'
      \/ reaches_loader o = true /\ probe_fields_downgraded E s s').
Proof.
  intros Hat s s'. subst s s'.
  destruct (run_op_settled E o p Hat) as [Hat' Hstep].
  split; [exact Hat'|].
  destruct (reaches_loader o) eqn:Hr.
  - destruct Hstep as [H|H]; [left | right]; auto.
  - left. rewrite (run_op_state_kept E o p Hat Hr). split; reflexivity.
Qed.

End Probe.

Lemma probe_fields_after_attempt_witness :
  let p := snd (probe_mlx_runtime broken_import_env initial_proc) in
  let o := OpGetOrLoad (lit "kokoro") in
  mlx_probe_attempted (STATE p) = true /\
  mlx_probe_attempted (STATE (run_op (L := posix_ascii) broken_import_env o p)) = true /\
  (probe_fields_kept (STATE p) (STATE (run_op (L := posix_ascii) broken_import_env o p))
   \/ reaches_loader o = true
      /\ probe_fields_downgraded broken_import_env (STATE p)
           (STATE (run_op (L := posix_ascii) broken_import_env o p))).
Proof.
  intros p o. split; [reflexivity|].
  exact (probe_fields_after_attempt (L := posix_ascii) broken_import_env o p eq_refl).
Defined.

(** The probe succeeds in its child process, then the import fails
    inside the process: [get_mlx_loader] rewrites both fields although
    the probe had been attempted. *)
Lemma probe_fields_rewritten_counterexample :
  let p := snd (probe_mlx_runtime broken_import_env initial_proc) in
  let p' := snd (get_mlx_loader (L := posix_ascii) broken_import_env p) in
  mlx_probe_attempted (STATE p) = true /\
  mlx_probe_available (STATE p) = true /\
  mlx_probe_error (STATE p) = None /\
  mlx_probe_available (STATE p') = false /\
  mlx_probe_error (STATE p') = Some (lit "cannot import name 'load_model'").
Proof.
  repeat split.
Qed.

(** * Further properties of the code *)

(** ** sanitize *)

Lemma re_sub_not_slug s : re_sub match_not_slug [] s = List.filter is_slug_char s.
Proof.
  unfold re_sub. induction s as [|x r IH]; [reflexivity|].
  cbn [re_sub_from match_not_slug List.filter].
  destruct (is_slug_char x); [f_equal; exact IH | exact IH].
Qed.

Lemma filter_forallb {A} (f : A -> bool) (l : list A) :
  forallb f (List.filter f l) = true.
Proof.
  induction l as [|x r IH]; [reflexivity|]. simpl.
  destruct (f x) eqn:Hx; [simpl; rewrite Hx; exact IH | exact IH].
Qed.

Lemma filter_fixed {A} (f : A -> bool) (l : list A) :
  forallb f l = true -> List.filter f l = l.
Proof.
  induction l as [|x r IH]; [reflexivity|]. simpl.
  destruct (f x); [|discriminate]. intros H. f_equal. apply IH, H.
Qed.

(** X1: whatever the value, [sanitize] returns a string that is not
    empty and holds only letters, digits, underscores and hyphens, so no
    path separator, dot or whitespace reaches a file name. *)
Theorem sanitize_slug (value : str) :
  sanitize value <> [] /\ forallb is_slug_char (sanitize value) = true.
Proof.
  unfold sanitize, por. rewrite re_sub_not_slug.
  destruct (List.filter is_slug_char value) as [|c r] eqn:Hf; cbn [truthy].
  - split; [discriminate | reflexivity].
  - split; [discriminate|]. rewrite <- Hf. apply filter_forallb.
Qed.

(** X2: [sanitize] is idempotent: a sanitized value is its own
    sanitization, the placeholder ["segment"] included. *)
Theorem sanitize_idempotent (value : str) :
  sanitize (sanitize value) = sanitize value.
Proof.
  unfold sanitize. rewrite !re_sub_not_slug. unfold por at 2.
  destruct (List.filter is_slug_char value) as [|c r] eqn:Hf; cbn [truthy].
  - reflexivity.
  - rewrite <- Hf, (filter_fixed _ _ (filter_forallb is_slug_char value)), Hf.
    reflexivity.
Qed.

(** ** extract_tags and validate_tags *)

Lemma re_finditer_from_skip m k s :
  re_finditer_from m k s = re_finditer_from m 0 (drop k s).
Proof.
  revert k. induction s as [|x r IH]; intros [|k]; simpl; try reflexivity.
  apply IH.
Qed.

Lemma run_until_app c t rest :
  ~ In c t -> run_until c (t ++ c :: rest) = length t.
Proof.
  induction t as [|x r IH]; simpl; intros H.
  - rewrite N.eqb_refl. reflexivity.
  - destruct (N.eqb_spec x c) as [->|_]; [tauto|]. f_equal. apply IH. tauto.
Qed.

Lemma nth_error_middle (t : str) c rest : nth_error (t ++ c :: rest) (length t) = Some c.
Proof. induction t as [|x r IH]; [reflexivity | exact IH]. Qed.

(** A bracketed tag at the start of a text is the first match. *)
Lemma match_tag_bracketed t rest :
  t <> [] -> ~ In RBRACKET t ->
  match_tag (LBRACKET :: t ++ RBRACKET :: rest) = Some (S (S (length t))).
Proof.
  intros Hne Hin. unfold match_tag. rewrite N.eqb_refl, (run_until_app _ _ _ Hin).
  destruct t as [|x r]; [contradiction|].
  cbn [length backtrack_ws_then].
  change (S (length r)) with (length (x :: r)).
  rewrite nth_error_middle, N.eqb_refl. reflexivity.
Qed.

Lemma re_finditer_bracketed t rest :
  t <> [] -> ~ In RBRACKET t ->
  re_finditer match_tag (LBRACKET :: t ++ RBRACKET :: rest)
  = (lit "[" ++ t ++ lit "]") :: re_finditer match_tag rest.
Proof.
  intros Hne Hin. unfold re_finditer. cbn [re_finditer_from].
  rewrite (match_tag_bracketed t rest Hne Hin). f_equal.
  - change (lit "[") with [LBRACKET]. change (lit "]") with [RBRACKET].
    cbn [firstn app]. f_equal.
    change (RBRACKET :: rest) with ([RBRACKET] ++ rest).
    rewrite app_assoc, firstn_app.
    replace (S (length t) - length (t ++ [RBRACKET])) with 0
      by (rewrite length_app; simpl; lia).
    rewrite firstn_all2 by (rewrite length_app; simpl; lia).
    simpl. rewrite app_nil_r. reflexivity.
  - rewrite re_finditer_from_skip. f_equal.
    replace (S (length t)) with (length t + 1) by lia.
    rewrite <- drop_drop, drop_app_length. reflexivity.
Qed.

Lemma re_finditer_space rest :
  re_finditer match_tag (SPACE :: rest) = re_finditer match_tag rest.
Proof. reflexivity. Qed.

Lemma re_finditer_joined tags text :
  tags <> [] -> Forall (fun t => t <> [] /\ ~ In RBRACKET t) tags ->
  re_finditer match_tag
    (join (lit " ") (map (fun t => lit "[" ++ t ++ lit "]") tags) ++ lit " " ++ text)
  = map (fun t => lit "[" ++ t ++ lit "]") tags ++ re_finditer match_tag text.
Proof.
  intros Hne H. induction H as [|t tags [Ht Hin] Hrest IH]; [contradiction|].
  destruct tags as [|t' tags'].
  - cbn [map join app].
    change (lit "[" ++ t ++ lit "]") with (LBRACKET :: t ++ [RBRACKET]).
    cbn [app]. rewrite <- app_assoc. cbn [app].
    change (lit " " ++ text) with (SPACE :: text).
    rewrite (re_finditer_bracketed t (SPACE :: text) Ht Hin), re_finditer_space.
    reflexivity.
  - specialize (IH ltac:(discriminate)).
    change (join (lit " ") (map (fun t => lit "[" ++ t ++ lit "]") (t :: t' :: tags')))
      with ((LBRACKET :: t ++ [RBRACKET]) ++ lit " "
            ++ join (lit " ") (map (fun t => lit "[" ++ t ++ lit "]") (t' :: tags'))).
    cbn [app]. rewrite <- !app_assoc. cbn [app].
    change (lit " " ++ ?x) with (SPACE :: x).
    rewrite (re_finditer_bracketed t _ Ht Hin).
    change (SPACE :: ?x ++ SPACE :: text) with (SPACE :: x ++ lit " " ++ text).
    rewrite re_finditer_space, IH. reflexivity.
Qed.

Lemma tag_group_bracketed t : tag_group (lit "[" ++ t ++ lit "]") = t.
Proof.
  unfold tag_group. change (lit "[" ++ t ++ lit "]") with (LBRACKET :: t ++ [RBRACKET]).
  cbn [tl]. apply removelast_last.
Qed.

Lemma re_finditer_no_bracket text :
  ~ In LBRACKET text -> re_finditer match_tag text = [].
Proof.
  unfold re_finditer. induction text as [|x r IH]; [reflexivity|].
  intros H. cbn [re_finditer_from match_tag].
  destruct (N.eqb_spec x LBRACKET) as [->|_]; [simpl in H; tauto|].
  apply IH. simpl in H. tauto.
Qed.

Lemma startswith_no_bracket text :
  ~ In LBRACKET text -> startswith text (lit "[") = false.
Proof.
  destruct text as [|x r]; [reflexivity|]. intros H.
  change (lit "[") with [LBRACKET]. cbn [startswith].
  destruct (N.eqb_spec x LBRACKET) as [->|_]; [simpl in H; tauto | reflexivity].
Qed.

Section Tags.

Context {L : PyLib}.

(** Tags that are already trimmed and lowercased are rendered as they are. *)
Lemma apply_expression_tags_plain text tags :
  tags <> [] ->
  Forall (fun t => t <> [] /\ strip t = t /\ str_lower t = t) tags ->
  startswith text (lit "[") = false ->
  apply_expression_tags text tags
  = join (lit " ") (map (fun t => lit "[" ++ t ++ lit "]") tags) ++ lit " " ++ text.
Proof.
  intros Hne H Htext. unfold apply_expression_tags.
  assert (Hf : List.filter (fun tag => truthy (strip tag)) tags = tags).
  { clear Hne. induction H as [|t tags (Ht & Hs & _) _ IH]; [reflexivity|].
    simpl. rewrite Hs, IH. destruct t; [contradiction | reflexivity]. }
  assert (Hm : map (fun tag => str_lower (strip tag)) tags = tags).
  { clear Hne Hf. induction H as [|t tags (_ & Hs & Hl) _ IH]; [reflexivity|].
    simpl. rewrite Hs, Hl, IH. reflexivity. }
  destruct tags as [|t tags]; [contradiction|].
  rewrite Hf, Hm, Htext. reflexivity.
Qed.

Lemma extract_tags_applied text tags :
  tags <> [] ->
  Forall (fun t => t <> [] /\ strip t = t /\ str_lower t = t /\ ~ In RBRACKET t) tags ->
  startswith text (lit "[") = false ->
  extract_tags (apply_expression_tags text tags) = tags ++ extract_tags text.
Proof.
  intros Hne H Htext.
  rewrite (apply_expression_tags_plain text tags Hne); [|
    eapply List.Forall_impl; [|exact H]; cbv beta; tauto | exact Htext].
  unfold extract_tags. rewrite re_finditer_joined; [| exact Hne |
    eapply List.Forall_impl; [|exact H]; cbv beta; tauto].
  rewrite map_app, map_map. f_equal.
  clear Hne. induction H as [|t tags (_ & Hs & Hl & _) _ IH]; [reflexivity|].
  cbn [map]. rewrite tag_group_bracketed, Hs, Hl, IH. reflexivity.
Qed.

(** X3: tags put in front of a text by [apply_expression_tags] are read
    back by [extract_tags], in order and before the tags of the text
    itself; this holds for tags that are not empty, already trimmed and
    lowercased and free of closing brackets, and a text that does not
    start with an opening bracket. *)
Theorem extract_tags_of_applied (text : str) (tags : list str) :
  tags <> [] ->
  Forall (fun t => t <> [] /\ strip t = t /\ str_lower t = t /\ ~ In RBRACKET t) tags ->
  startswith text (lit "[") = false ->
  extract_tags (apply_expression_tags text tags) = tags ++ extract_tags text.
Proof.
  exact (extract_tags_applied text tags).
Qed.

Lemma supported_tag_plain t :
  In t SUPPORTED_TAGS -> t <> [] /\ strip t = t /\ ~ In RBRACKET t.
Proof.
  unfold SUPPORTED_TAGS. cbn [In].
  intros [<-|[<-|[<-|[<-|[<-|[]]]]]];
    (split; [discriminate|]; split; [reflexivity|]);
    cbn; intros H; repeat (destruct H as [H|H]; [discriminate H|]); exact H.
Qed.

Lemma str_in_In t l : In t l -> str_in t l = true.
Proof.
  intros H. unfold str_in. apply existsb_exists. exists t. split; [exact H|].
  unfold str_eqb. apply bool_decide_eq_true_2. reflexivity.
Qed.

(** X4: a text without opening brackets, prefixed by [apply_expression_tags]
    with tags of the supported set (which the case mapping leaves as
    they are), is reported valid by [validate_tags], with no invalid tag. *)
Theorem validate_tags_of_supported (text : str) (tags : list str) :
  tags <> [] ->
  Forall (fun t => In t SUPPORTED_TAGS /\ str_lower t = t) tags ->
  ~ In LBRACKET text ->
  validate_tags (apply_expression_tags text tags)
  = {| isValid := true; invalidTags := []; supportedTags := SUPPORTED_TAGS |}.
Proof.
  intros Hne H Htext.
  assert (Hplain : Forall (fun t => t <> [] /\ strip t = t /\ str_lower t = t
                                    /\ ~ In RBRACKET t) tags).
  { eapply List.Forall_impl; [|exact H]. cbv beta. intros t [Hin Hl].
    destruct (supported_tag_plain t Hin) as (? & ? & ?). auto. }
  unfold validate_tags.
  rewrite (extract_tags_applied text tags Hne Hplain (startswith_no_bracket text Htext)).
  assert (Hx : extract_tags text = [])
    by (unfold extract_tags; rewrite (re_finditer_no_bracket text Htext); reflexivity).
  rewrite Hx, app_nil_r.
  assert (Hf : List.filter (fun tag => negb (str_in tag SUPPORTED_TAGS)) tags = []).
  { clear Hne Hplain. induction H as [|t tags [Hin _] _ IH]; [reflexivity|].
    cbn [List.filter]. rewrite (str_in_In t _ Hin). exact IH. }
  rewrite Hf. reflexivity.
Qed.

End Tags.

Lemma extract_tags_of_applied_witness :
  let tags := [lit "laughs"; lit "sighs"] in
  let text := lit "hello [X] there" in
  tags <> [] /\
  Forall (fun t => t <> [] /\ strip t = t /\ str_lower (PyLib := posix_ascii) t = t
                   /\ ~ In RBRACKET t) tags /\
  startswith text (lit "[") = false /\
  extract_tags (L := posix_ascii) (apply_expression_tags (L := posix_ascii) text tags)
  = [lit "laughs"; lit "sighs"; lit "x"].
Proof.
  intros tags text.
  assert (H1 : tags <> []) by discriminate.
  assert (H2 : Forall (fun t => t <> [] /\ strip t = t
                                /\ str_lower (PyLib := posix_ascii) t = t
                                /\ ~ In RBRACKET t) tags).
  { repeat constructor; try discriminate;
      cbn; intros H; repeat (destruct H as [H|H]; [discriminate H|]); exact H. }
  split; [exact H1|]. split; [exact H2|]. split; [reflexivity|].
  exact (extract_tags_of_applied (L := posix_ascii) text tags H1 H2 eq_refl).
Defined.

Lemma validate_tags_of_supported_witness :
  let tags := [lit "whispers"; lit "laughs"] in
  let text := lit "come closer" in
  tags <> [] /\
  Forall (fun t => In t SUPPORTED_TAGS /\ str_lower (PyLib := posix_ascii) t = t) tags /\
  ~ In LBRACKET text /\
  isValid (validate_tags (L := posix_ascii)
             (apply_expression_tags (L := posix_ascii) text tags)) = true.
Proof.
  intros tags text.
  assert (H1 : tags <> []) by discriminate.
  assert (H2 : Forall (fun t => In t SUPPORTED_TAGS
                                /\ str_lower (PyLib := posix_ascii) t = t) tags).
  { apply List.Forall_cons; [split; [cbn; auto 10 | reflexivity]|].
    apply List.Forall_cons; [split; [cbn; auto 10 | reflexivity]|].
    apply List.Forall_nil. }
  assert (H3 : ~ In LBRACKET text).
  { cbn. intros H. repeat (destruct H as [H|H]; [discriminate H|]). exact H. }
  split; [exact H1|]. split; [exact H2|]. split; [exact H3|].
  rewrite (validate_tags_of_supported (L := posix_ascii) text tags H1 H2 H3).
  reflexivity.
Defined.

(** ** llm_prep and the shape of a normalized text *)

Lemma normalize_fixed_iff text :
  str_eqb (normalize_for_speech text) text = normalized text.
Proof.
  unfold str_eqb. destruct (normalized text) eqn:Hn.
  - apply bool_decide_eq_true_2. apply normalized_fixed, Hn.
  - apply bool_decide_eq_false_2. intros H.
    pose proof (normalize_normalized text) as Hn'. rewrite H in Hn'. congruence.
Qed.

(** X5: [llm_prep] reports [changed] exactly for the texts that are not
    in normalized shape (no whitespace in front, every whitespace
    character a single space followed by a character that is neither
    whitespace nor a comma nor a period); preparing a prepared text
    again reports no change. *)
Theorem llm_prep_changed (text : str) :
  changed (llm_prep text) = negb (normalized text)
  /\ changed (llm_prep (preparedText (llm_prep text))) = false.
Proof.
  unfold llm_prep. cbn [changed preparedText]. rewrite !normalize_fixed_iff.
  split; [reflexivity|]. rewrite normalize_normalized. reflexivity.
Qed.

Lemma spaced_nth_error bad s i c :
  spaced bad s = true -> nth_error s i = Some c -> isspace c = true ->
  c = SPACE
  /\ exists y, nth_error s (S i) = Some y /\ isspace y = false /\ bad y = false.
Proof.
  revert i. induction s as [|x r IH]; intros i Hs Hi Hc; [destruct i; discriminate|].
  rewrite spaced_cons in Hs. apply andb_true_iff in Hs as [Hx Hr].
  destruct i as [|i].
  - injection Hi as ->. rewrite Hc in Hx. apply andb_true_iff in Hx as [Hsp Hy].
    apply N.eqb_eq in Hsp. split; [exact Hsp|].
    destruct r as [|y r']; [discriminate|].
    apply andb_true_iff in Hy as [Hy Hb]. apply negb_true_iff in Hy, Hb.
    exists y. auto.
  - apply (IH i Hr Hi Hc).
Qed.

(** X6: in the output of [normalize_for_speech] every whitespace
    character is a plain space, is not the first character, and is
    followed by a character that is neither whitespace nor a comma nor a
    period; so there is no whitespace at either end, no run of two, and
    none before a comma or a period. *)
Theorem normalize_for_speech_shape (text : str) (i : nat) (c : N) :
  nth_error (normalize_for_speech text) i = Some c -> isspace c = true ->
  c = SPACE /\ 0 < i
  /\ exists y, nth_error (normalize_for_speech text) (S i) = Some y
               /\ isspace y = false /\ y <> COMMA /\ y <> DOT.
Proof.
  intros Hi Hc. pose proof (normalize_normalized text) as Hn.
  unfold normalized in Hn. apply andb_true_iff in Hn as [Hh Hs].
  apply negb_true_iff in Hh.
  destruct (spaced_nth_error _ _ i c Hs Hi Hc) as (Hsp & y & Hy & Hys & Hb).
  split; [exact Hsp|]. split.
  - destruct i as [|i]; [|lia].
    destruct (normalize_for_speech text) as [|x r]; [discriminate|].
    injection Hi as ->. simpl in Hh. congruence.
  - exists y. split; [exact Hy|]. split; [exact Hys|].
    unfold or_char, no_char in Hb. apply orb_false_iff in Hb as [Hb1 Hb2].
    apply orb_false_iff in Hb1 as [_ Hb1].
    apply N.eqb_neq in Hb1, Hb2. auto.
Qed.

Lemma normalize_for_speech_shape_witness :
  let text := lit "  wait ,  what  . " in
  normalize_for_speech text = lit "wait, what." /\
  nth_error (normalize_for_speech text) 5 = Some SPACE /\ isspace SPACE = true /\
  SPACE = SPACE /\ 0 < 5
  /\ exists y, nth_error (normalize_for_speech text) 6 = Some y
               /\ isspace y = false /\ y <> COMMA /\ y <> DOT.
Proof.
  intros text. split; [reflexivity|]. split; [reflexivity|]. split; [reflexivity|].
  exact (normalize_for_speech_shape text 5 SPACE eq_refl eq_refl).
Defined.

Lemma collapse_blank s : forallb isspace s = true -> forallb isspace (collapse s) = true.
Proof.
  induction s as [|x r IH]; [reflexivity|]. simpl.
  destruct (isspace x); [|discriminate]. simpl. intros H.
  destruct (head_space r); [apply IH, H | simpl; apply IH, H].
Qed.

(** X7: a text that is empty or only whitespace is normalized to the
    empty string, and the stub then writes its shortest tone, 8400
    samples (0.35 s), for every speed that is a finite number, zero and
    negative speeds included.  (A speed that is not a number is outside
    the rationals: there the comparisons of [max] and [min] fail and the
    code gives 12 s.) *)
Theorem blank_text_shortest_stub (text : str) (speed : Q) :
  forallb isspace text = true ->
  normalize_for_speech text = []
  /\ stub_total_samples (normalize_for_speech text) speed = 8400%Z.
Proof.
  intros H.
  assert (Hn : normalize_for_speech text = []).
  { unfold normalize_for_speech. rewrite re_sub_ws_collapse.
    rewrite (strip_blank _ (collapse_blank text H)). reflexivity. }
  rewrite Hn. split; [reflexivity|].
  destruct speed as [n d]. unfold stub_total_samples, stub_duration, stub_raw_duration.
  destruct n; vm_compute; reflexivity.
Qed.

Lemma blank_text_shortest_stub_witness :
  forallb isspace (lit "  ") = true /\
  normalize_for_speech (lit "  ") = []
  /\ stub_total_samples (normalize_for_speech (lit "  ")) (3 # 2) = 8400%Z.
Proof.
  split; [reflexivity|].
  exact (blank_text_shortest_stub (lit "  ") (3 # 2) eq_refl).
Defined.

(** ** Bounds of the stub and of the fallback encoder *)

Lemma int_of_Q_bounds (a b : Z) (x : Q) :
  (0 <= a)%Z -> (inject_Z a <= x)%Q -> (x <= inject_Z b)%Q ->
  (a <= int_of_Q x <= b)%Z.
Proof.
  destruct x as [n d]. unfold Qle, int_of_Q. cbn [Qnum Qden inject_Z].
  intros Ha Hlo Hhi. rewrite Z.quot_div_nonneg by lia. split.
  - apply Z.div_le_lower_bound; lia.
  - apply Z.div_le_upper_bound; lia.
Qed.

Lemma stub_duration_bounds text speed :
  (35 # 100 <= stub_duration text speed)%Q /\ (stub_duration text speed <= 12)%Q.
Proof.
  unfold stub_duration. split; [apply Q.le_max_l|].
  apply Q.max_lub; [discriminate | apply Q.le_min_l].
Qed.

(** X8: whatever the text and the speed (zero and negative speeds
    included), the stub writes at least 8400 and at most 288000 samples:
    between 0.35 and 12 seconds at 24000 samples per second. *)
Theorem stub_total_samples_bounds (text : str) (speed : Q) :
  (8400 <= stub_total_samples text speed <= 288000)%Z.
Proof.
  destruct (stub_duration_bounds text speed) as [Hlo Hhi].
  unfold stub_total_samples. apply int_of_Q_bounds; [lia | |].
  - destruct (stub_duration text speed) as [n d].
    unfold Qle in *. cbn in *. lia.
  - destruct (stub_duration text speed) as [n d].
    unfold Qle in *. cbn in *. lia.
Qed.

Lemma int_of_Q_abs_bound (b : Z) (x : Q) :
  (inject_Z (- b) <= x)%Q -> (x <= inject_Z b)%Q -> (- b <= int_of_Q x <= b)%Z.
Proof.
  destruct x as [n d]. unfold Qle, int_of_Q. cbn [Qnum Qden inject_Z].
  intros Hlo Hhi. assert (Hb : (0 <= b)%Z) by nia.
  destruct (Z.le_gt_cases 0 n) as [Hn|Hn].
  - rewrite Z.quot_div_nonneg by lia.
    assert (0 <= n / Z.pos d <= b)%Z; [|lia]. split.
    + apply Z.div_pos; lia.
    + apply Z.div_le_upper_bound; lia.
  - rewrite <- (Z.opp_involutive n), Z.quot_opp_l by lia.
    rewrite Z.quot_div_nonneg by lia.
    assert (0 <= - n / Z.pos d <= b)%Z; [|lia]. split.
    + apply Z.div_pos; lia.
    + apply Z.div_le_upper_bound; lia.
Qed.

(** X9: the samples the fallback encoder of [write_waveform] writes,
    the clipped waveform scaled by 32767 and truncated, all lie between
    -32767 and 32767, whatever the waveform: they fit in 16 bits without
    wrapping. *)
Theorem scale_int16_in_range (w : waveform) :
  Forall (fun v => (-32767 <= v <= 32767)%Z) (scale_int16 (clip_waveform w)).
Proof.
  unfold scale_int16, clip_waveform. rewrite map_map.
  apply List.Forall_forall. intros v Hv. apply in_map_iff in Hv as (x & <- & _).
  assert (Hlo : (-1 <= Qmin 1 (Qmax (-1) x))%Q).
  { apply Q.min_glb; [discriminate | apply Q.le_max_l]. }
  assert (Hhi : (Qmin 1 (Qmax (-1) x) <= 1)%Q) by apply Q.le_min_l.
  apply (int_of_Q_abs_bound 32767).
  - destruct (Qmin 1 (Qmax (-1) x)) as [n d]. unfold Qle in *. cbn in *. lia.
  - destruct (Qmin 1 (Qmax (-1) x)) as [n d]. unfold Qle in *. cbn in *. lia.
Qed.

(** ** Resolution of sample rate, language, model source and node script *)

(** X10: the sample rate inferred for a model is always positive: it is
    the default 24000 or the value of one of the attributes
    [sample_rate], [sampling_rate], [sr] of the model. *)
Theorem infer_sample_rate_positive (E : Env) (model_instance : handle) :
  (0 < infer_sample_rate E model_instance)%Z
  /\ (infer_sample_rate E model_instance = 24000%Z
      \/ exists attr,
           In attr [lit "sample_rate"; lit "sampling_rate"; lit "sr"]
           /\ model_attr_int E model_instance attr
              = Some (infer_sample_rate E model_instance)).
Proof.
  unfold infer_sample_rate.
  destruct (model_attr_int E model_instance (lit "sample_rate")) as [v1|] eqn:H1;
    [destruct (Z.ltb_spec 0 v1)|];
    try (split; [assumption|]; right; exists (lit "sample_rate"); split;
         [cbn; auto | exact H1]);
    (destruct (model_attr_int E model_instance (lit "sampling_rate")) as [v2|] eqn:H2;
     [destruct (Z.ltb_spec 0 v2)|];
     try (split; [assumption|]; right; exists (lit "sampling_rate"); split;
          [cbn; auto | exact H2]);
     (destruct (model_attr_int E model_instance (lit "sr")) as [v3|] eqn:H3;
      [destruct (Z.ltb_spec 0 v3)|];
      try (split; [assumption|]; right; exists (lit "sr"); split;
           [cbn; auto | exact H3]);
      (split; [lia | left; reflexivity]))).
Qed.

Lemma str_in_true t l : str_in t l = true -> In t l.
Proof.
  unfold str_in. intros H. apply existsb_exists in H as (x & Hx & Heq).
  unfold str_eqb in Heq. apply bool_decide_eq_true_1 in Heq. subst x. exact Hx.
Qed.

(** X11: whatever the voice and the case mapping, [resolve_lang_code]
    returns one of the six language codes a, b, j, z, e, f; an empty or
    unrecognised voice gives a. *)
Theorem resolve_lang_code_known {L : PyLib} (voice : str) :
  In (resolve_lang_code voice)
     [lit "a"; lit "b"; lit "j"; lit "z"; lit "e"; lit "f"].
Proof.
  unfold resolve_lang_code.
  destruct (str_in (str_lower (firstn 1 voice)) _) eqn:H.
  - apply str_in_true, H.
  - left. reflexivity.
Qed.

(** X12: a model source that [resolve_model_source] returns is either
    the non-empty value of the model's environment variable or a
    directory that exists; the hub identifier listed as the default in
    [MODEL_SOURCES] is never returned for its own sake. *)
Theorem resolve_model_source_found {L : PyLib} (E : Env) (model_kind source : str) :
  resolve_model_source E model_kind = Ok source ->
  exists default_id variable,
    MODEL_SOURCES model_kind = Some (default_id, variable)
    /\ (getenv E variable = Some source /\ source <> []
        \/ path_exists E source = true).
Proof.
  unfold resolve_model_source.
  destruct (MODEL_SOURCES model_kind) as [[default_id variable]|]; [|discriminate].
  intros H. exists default_id, variable. split; [reflexivity|].
  destruct (getenv E variable) as [value|] eqn:Hv; cbn [default] in H.
  - destruct value as [|c r]; cbn [truthy] in H.
    + destruct (negb (truthy _)); [discriminate|].
      destruct (path_exists E _) eqn:He; [|discriminate].
      injection H as <-. right. exact He.
    + injection H as <-. left. split; [reflexivity | discriminate].
  - cbn [truthy] in H. destruct (negb (truthy _)); [discriminate|].
    destruct (path_exists E _) eqn:He; [|discriminate].
    injection H as <-. right. exact He.
Qed.

Lemma resolve_model_source_found_witness :
  resolve_model_source (L := posix_ascii) mlx_env (lit "kokoro") = Ok (lit "/models/kokoro")
  /\ exists default_id variable,
       MODEL_SOURCES (lit "kokoro") = Some (default_id, variable)
       /\ (getenv mlx_env variable = Some (lit "/models/kokoro")
           /\ lit "/models/kokoro" <> []
           \/ path_exists mlx_env (lit "/models/kokoro") = true).
Proof.
  split; [reflexivity|].
  exact (resolve_model_source_found (L := posix_ascii) mlx_env (lit "kokoro")
           (lit "/models/kokoro") eq_refl).
Defined.


(** ** The probe and the model cache as steps of the state *)

Lemma steps_preserves {A} (R : RuntimeState -> RuntimeState -> Prop) (m : M A) :
  Reflexive R -> preserves STATE m -> steps R m.
Proof. intros HR H p. rewrite H. reflexivity. Qed.

Lemma steps_bind {A B} (R : RuntimeState -> RuntimeState -> Prop) (m : M A)
    (k : A -> M B) :
  Transitive R -> steps R m -> (forall a, steps R (k a)) -> steps R (bind m k).
Proof.
  intros HR Hm Hk p. unfold bind. specialize (Hm p).
  destruct (m p) as [[a|e] p']; cbn [snd] in *; [|exact Hm].
  transitivity (STATE p'); [exact Hm | apply Hk].
Qed.

Lemma steps_try_return {A} (R : RuntimeState -> RuntimeState -> Prop) (m k : M A) :
  Transitive R -> steps R m -> steps R k -> steps R (try_return m k).
Proof.
  intros HR Hm Hk p. unfold try_return. specialize (Hm p).
  destruct (m p) as [[a|e] p']; cbn [snd] in *; [exact Hm|].
  transitivity (STATE p'); [exact Hm | apply Hk].
Qed.

#[local] Instance same_models_refl : Reflexive same_models.
Proof. intros s. split; reflexivity. Qed.

#[local] Instance same_models_trans : Transitive same_models.
Proof. intros s1 s2 s3 [H1 H2] [H3 H4]. split; congruence. Qed.

#[local] Instance cache_step_refl : Reflexive cache_step.
Proof. intros s. split; [reflexivity | auto]. Qed.

#[local] Instance cache_step_trans : Transitive cache_step.
Proof.
  intros s1 s2 s3 [H1 H2] [H3 H4]. split; [|auto].
  transitivity (model_cache s2); assumption.
Qed.

Lemma same_models_cache_step s s' : same_models s s' -> cache_step s s'.
Proof.
  intros [Hc Hs]. unfold cache_step, coherent. rewrite Hc, Hs.
  split; [reflexivity | auto].
Qed.

Lemma steps_same_probe E : steps same_models (probe_mlx_runtime E).
Proof.
  intros p. unfold probe_mlx_runtime, bind, get_state, put_state, ret. cbn [fst snd].
  destruct (mlx_probe_attempted (STATE p)); [split; reflexivity|].
  destruct (run_probe E) as [result|error]; [destruct (negb _)|]; split; reflexivity.
Qed.

Lemma known_model_kind {L : PyLib} E model_kind source :
  resolve_model_source E model_kind = Ok source ->
  model_kind = lit "kokoro" \/ model_kind = lit "chatterbox".
Proof.
  unfold resolve_model_source, MODEL_SOURCES, str_eqb.
  repeat case_bool_decide; auto. discriminate.
Qed.

Section CacheSteps.

Context {L : PyLib}.

Lemma steps_same_available E : steps same_models (mlx_runtime_available E).
Proof.
  unfold mlx_runtime_available.
  destruct (negb (mlx_runtime_enabled E)); [intros p; split; reflexivity|].
  apply steps_bind; [exact _ | intros p; split; reflexivity | intros s].
  apply steps_bind; [exact _ | | intros _].
  - destruct (negb (mlx_probe_attempted s));
      [apply steps_same_probe | intros p; split; reflexivity].
  - intros p. split; reflexivity.
Qed.

Lemma steps_same_loader E : steps same_models (get_mlx_loader E).
Proof.
  intros p. unfold get_mlx_loader. unfold bind at 1.
  pose proof (steps_same_available E p) as H.
  destruct (mlx_runtime_available E p) as [[available|e] p1]; cbn [fst snd] in *;
    [|exact H].
  destruct (negb available); [exact H|].
  unfold bind, get_state, put_state, ret. cbn [fst snd].
  destruct (mlx_load_model (STATE p1)); [exact H|].
  destruct (import_loader E); cbn [fst snd STATE]; exact H.
Qed.

(** What [get_or_load_model] does to the two dictionaries. *)
Lemma get_or_load_model_models E model_kind p :
  cache_step (STATE p) (STATE (snd (get_or_load_model E model_kind p)))
  /\ match fst (get_or_load_model E model_kind p) with
     | Ok model_instance =>
         model_cache (STATE (snd (get_or_load_model E model_kind p))) !! model_kind
         = Some model_instance
     | Raise _ => same_models (STATE p) (STATE (snd (get_or_load_model E model_kind p)))
     end.
Proof.
  pose proof (steps_same_loader E p) as H.
  destruct (get_or_load_model E model_kind p) as [r p'] eqn:Hres. cbn [fst snd].
  revert Hres. unfold get_or_load_model. unfold bind at 1.
  destruct (get_mlx_loader E p) as [[[load_model|]|e] q]; cbn [fst snd] in *;
    [| intros [= <- <-]; split; [apply same_models_cache_step|]; exact H
     | intros [= <- <-]; split; [apply same_models_cache_step|]; exact H].
  unfold bind, get_state, put_state, lift, next_load, ret. cbn [fst snd].
  destruct (model_cache (STATE q) !! model_kind) as [cached|] eqn:Hk; cbn [fst snd].
  { intros [= <- <-]. split; [apply same_models_cache_step, H | exact Hk]. }
  destruct (resolve_model_source E model_kind) as [source|] eqn:Hsrc; cbn [fst snd STATE];
    [| intros [= <- <-]; split; [apply same_models_cache_step|]; exact H].
  destruct (call_loader E load_model (load_calls q) source) as [h|]; cbn [fst snd STATE];
    intros [= <- <-]; cbn [STATE];
    [| split; [apply same_models_cache_step|]; exact H].
  split; [|apply lookup_insert_eq].
  transitivity (STATE q); [apply same_models_cache_step, H|].
  unfold cache_step, coherent, set_model. cbn [model_cache model_source]. split.
  - apply insert_subseteq, Hk.
  - intros [Hd Hknown]. rewrite !dom_insert_L, Hd. split; [reflexivity|].
    apply union_least; [|rewrite <- Hd; exact Hknown].
    destruct (known_model_kind E model_kind source Hsrc) as [->| ->];
      [apply union_subseteq_l | apply union_subseteq_r].
Qed.

Lemma steps_cache_get_or_load_model E model_kind :
  steps cache_step (get_or_load_model E model_kind).
Proof. intros p. apply get_or_load_model_models. Qed.

Lemma steps_cache_synthesize_mlx E text output_path speed model voice_id expression_tags :
  steps cache_step (synthesize_mlx E text output_path speed model voice_id expression_tags).
Proof.
  unfold synthesize_mlx.
  apply steps_bind; [exact _ | apply steps_preserves; [exact _ | frame] | intros _].
  apply steps_bind; [exact _ | apply steps_cache_get_or_load_model | intros model_instance].
  apply steps_preserves; [exact _ | frame].
Qed.

Lemma steps_cache_synthesize E text output_path speed model voice_id expression_tags :
  steps cache_step (synthesize E text output_path speed model voice_id expression_tags).
Proof.
  unfold synthesize.
  set (node := synthesize_kokoro_node E _ output_path speed voice_id).
  set (stub := bind (synthesize_stub E _ output_path speed model) _).
  assert (Hnode : steps cache_step node).
  { apply steps_preserves; [exact _ | apply synthesize_kokoro_node_state]. }
  assert (Hstub : steps cache_step stub).
  { apply steps_preserves; [exact _|]. unfold stub.
    destruct (synthesize_stub_state E (normalize_for_speech text) output_path speed model)
      as (? & _). frame. }
  assert (Hafter : steps cache_step (if should_try_node_after_python E model
                                     then try_return node stub else stub)).
  { destruct (should_try_node_after_python E model);
      [apply steps_try_return; [exact _ | |]|]; assumption. }
  assert (Hpython :
    steps cache_step
      (bind (mlx_runtime_available E)
         (fun available =>
            if negb available
            then if should_try_node_after_python E model
                 then try_return node stub else stub
            else try_return
                   (bind (synthesize_mlx E (apply_expression_tags
                                              (normalize_for_speech text) expression_tags)
                            output_path speed model voice_id [])
                         (fun _ => ret {| wav_path := output_path;
                                          used_engine := lit "mlx-audio" |}))
                   (if should_try_node_after_python E model
                    then try_return node stub else stub)))).
  { apply steps_bind; [exact _ | | intros available].
    - intros p. apply same_models_cache_step, steps_same_available.
    - destruct (negb available); [exact Hafter|].
      apply steps_try_return; [exact _ | | exact Hafter].
      apply steps_bind; [exact _ | apply steps_cache_synthesize_mlx | intros _].
      apply steps_preserves; [exact _ | frame]. }
  destruct (should_try_node_before_python E model);
    [apply steps_try_return; [exact _ | |]|]; assumption.
Qed.

Lemma run_op_cache_step E o p : cache_step (STATE p) (STATE (run_op E o p)).
Proof.
  destruct o; cbn [run_op].
  - apply same_models_cache_step, steps_same_probe.
  - apply same_models_cache_step, steps_same_available.
  - apply same_models_cache_step, steps_same_loader.
  - apply steps_cache_get_or_load_model.
  - apply steps_cache_synthesize_mlx.
  - apply steps_preserves; [exact _ | apply synthesize_kokoro_node_state].
  - apply steps_preserves; [exact _ | apply synthesize_stub_state].
  - apply steps_cache_synthesize.
Qed.

End CacheSteps.

Lemma run_ops_cache_step {L : PyLib} l p : cache_step (STATE p) (STATE (run_ops l p)).
Proof.
  revert p. induction l as [|[E o] l IH]; intros p; [reflexivity|].
  unfold run_ops. cbn [fold_left fst snd]. fold (run_ops l (run_op E o p)).
  transitivity (STATE (run_op E o p)); [apply run_op_cache_step | apply IH].
Qed.

(** X14: the model cache never evicts and never replaces: a handle
    cached for a model kind is still the handle cached for it after any
    run of operations, in whatever environments they happen. *)
Theorem model_cache_keeps_handles {L : PyLib} (l : list (Env * op)) (p : Proc)
    (model_kind : str) (cached : handle) :
  model_cache (STATE p) !! model_kind = Some cached ->
  model_cache (STATE (run_ops l p)) !! model_kind = Some cached.
Proof.
  intros H. destruct (run_ops_cache_step l p) as [Hsub _].
  exact (lookup_weaken _ _ _ _ H Hsub).
Qed.

Lemma model_cache_keeps_handles_witness :
  let p := snd (get_or_load_model (L := posix_ascii) mlx_env (lit "kokoro") initial_proc) in
  let l := [(broken_import_env, OpGetOrLoad (lit "chatterbox"));
            (bare_env, OpSynthesize (lit "hi") (lit "/tmp/o.wav") 1 (lit "kokoro")
                         (lit "kokoro_narrator") [])] in
  model_cache (STATE p) !! lit "kokoro" = Some 0%N /\
  model_cache (STATE (run_ops (L := posix_ascii) l p)) !! lit "kokoro" = Some 0%N.
Proof.
  intros p l.
  assert (H : model_cache (STATE p) !! lit "kokoro" = Some 0%N) by (vm_compute; reflexivity).
  split; [exact H|].
  exact (model_cache_keeps_handles (L := posix_ascii) l p (lit "kokoro") 0%N H).
Defined.

(** X15: in every state the process reaches from its start, the cache
    of handles and the record of their sources have the same keys, these
    keys are among "kokoro" and "chatterbox", and so at most two models
    are ever held. *)
Theorem model_cache_coherent {L : PyLib} (l : list (Env * op)) :
  let s := STATE (run_ops l initial_proc) in
  dom (model_cache s) = dom (model_source s)
  /\ dom (model_cache s) ⊆ {[lit "kokoro"; lit "chatterbox"]}
  /\ size (model_cache s) <= 2.
Proof.
  destruct (run_ops_cache_step l initial_proc) as [_ H].
  destruct H as [Hd Hk].
  { split; [reflexivity|]. cbn. apply empty_subseteq. }
  cbv zeta. split; [exact Hd|]. split; [exact Hk|].
  rewrite <- size_dom. etransitivity; [apply subseteq_size, Hk|].
  rewrite size_union_alt, !size_singleton.
  pose proof (subseteq_size ({[lit "chatterbox"]} ∖ {[lit "kokoro"]} : gset str)
                {[lit "chatterbox"]} ltac:(apply subseteq_difference_l; reflexivity)) as Hs.
  rewrite size_singleton in Hs. lia.
Qed.

(** X16: a call of [get_or_load_model] that raises leaves the cache of
    handles and the record of sources exactly as they were: a failed
    load caches nothing, so the next call tries again. *)
Theorem get_or_load_model_failure_caches_nothing {L : PyLib} (E : Env)
    (model_kind : str) (p : Proc) (e : exn) :
  fst (get_or_load_model E model_kind p) = Raise e ->
  model_cache (STATE (snd (get_or_load_model E model_kind p))) = model_cache (STATE p)
  /\ model_source (STATE (snd (get_or_load_model E model_kind p))) = model_source (STATE p).
Proof.
  intros H. destruct (get_or_load_model_models E model_kind p) as [_ Hm].
  rewrite H in Hm. exact Hm.
Qed.

Lemma get_or_load_model_failure_caches_nothing_witness :
  let e := RuntimeError (lit "mlx-audio loader is unavailable in current runtime") in
  fst (get_or_load_model (L := posix_ascii) bare_env (lit "kokoro") initial_proc) = Raise e /\
  model_cache (STATE (snd (get_or_load_model (L := posix_ascii) bare_env (lit "kokoro")
                            initial_proc))) = ∅ /\
  model_source (STATE (snd (get_or_load_model (L := posix_ascii) bare_env (lit "kokoro")
                             initial_proc))) = ∅.
Proof.
  intros e. split; [reflexivity|].
  exact (get_or_load_model_failure_caches_nothing (L := posix_ascii) bare_env (lit "kokoro")
           initial_proc e eq_refl).
Defined.

(** ** The capability check *)

Section Capability.

Context {L : PyLib}.

Lemma mlx_runtime_available_disabled E p :
  mlx_runtime_enabled E = false -> mlx_runtime_available E p = (Ok false, p).
Proof. intros H. unfold mlx_runtime_available. rewrite H. reflexivity. Qed.

Lemma mlx_runtime_available_enabled E p :
  mlx_runtime_enabled E = true ->
  exists p1, mlx_runtime_available E p = (Ok (mlx_probe_available (STATE p1)), p1)
             /\ mlx_probe_attempted (STATE p1) = true.
Proof.
  intros He. destruct (mlx_probe_attempted (STATE p)) eqn:Hat.
  - exists p. rewrite (mlx_runtime_available_attempted E p Hat), He. auto.
  - unfold mlx_runtime_available. rewrite He. cbn [negb].
    unfold bind at 1, get_state at 1. cbn [fst snd]. rewrite Hat. cbn [negb].
    pose proof (probe_mlx_runtime_fresh E p) as (Hat1 & _).
    pose proof (post_probe_mlx_runtime E p) as Hok.
    unfold bind at 1. destruct (probe_mlx_runtime E p) as [[[]|e] p1];
      cbn [fst snd] in *; [|destruct Hok].
    exists p1. split; [reflexivity | exact Hat1].
Qed.

(** X17: the answer of the capability check is cached: after a call of
    [mlx_runtime_available] with the runtime enabled, a further call
    (with the runtime still enabled, in whatever environment otherwise)
    returns the same answer, runs no probe and leaves the process as it
    is. *)
Theorem mlx_runtime_available_cached (E E' : Env) (p : Proc) :
  mlx_runtime_enabled E = true -> mlx_runtime_enabled E' = true ->
  mlx_runtime_available E' (snd (mlx_runtime_available E p))
  = mlx_runtime_available E p.
Proof.
  intros He He'. destruct (mlx_runtime_available_enabled E p He) as (p1 & -> & Hat).
  cbn [snd]. rewrite (mlx_runtime_available_attempted E' p1 Hat), He'. reflexivity.
Qed.

End Capability.

Lemma mlx_runtime_available_cached_witness :
  mlx_runtime_enabled (L := posix_ascii) mlx_env = true /\
  mlx_runtime_enabled (L := posix_ascii) bare_env = true /\
  mlx_runtime_available (L := posix_ascii) bare_env
    (snd (mlx_runtime_available (L := posix_ascii) mlx_env initial_proc))
  = mlx_runtime_available (L := posix_ascii) mlx_env initial_proc.
Proof.
  split; [reflexivity|]. split; [reflexivity|].
  exact (mlx_runtime_available_cached (L := posix_ascii) mlx_env bare_env initial_proc
           eq_refl eq_refl).
Defined.


(** X18: a first probe marks the probe attempted and finds the runtime
    exactly when the child process exits with code zero; when the child
    exits with another code the diagnostic recorded is its trimmed
    stderr, else its trimmed stdout, else probe_exit_ and the code, and
    is never empty; when the child cannot be run the error's message is
    recorded. *)
Theorem probe_mlx_runtime_outcome (E : Env) (p : Proc) :
  mlx_probe_attempted (STATE p) = false ->
  let s' := STATE (snd (probe_mlx_runtime E p)) in
  mlx_probe_attempted s' = true
  /\ match run_probe E with
     | Ok result =>
         mlx_probe_available s' = (returncode result =? 0)%Z
         /\ if (returncode result =? 0)%Z
            then mlx_probe_error s' = mlx_probe_error (STATE p)
            else exists msg,
                   mlx_probe_error s' = Some msg /\ msg <> []
                   /\ msg = (let err := strip (default [] (stderr result)) in
                             let out := strip (default [] (stdout result)) in
                             if truthy err then err
                             else if truthy out then out
                             else lit "probe_exit_" ++ str_of_Z (returncode result))
     | Raise error =>
         mlx_probe_available s' = false
         /\ mlx_probe_error s' = Some (exn_str error)
     end.
Proof.
  intros Hat. unfold probe_mlx_runtime, bind, get_state, put_state, ret.
  cbn [fst snd]. rewrite Hat.
  destruct (run_probe E) as [result|error]; [|repeat split].
  destruct (returncode result =? 0)%Z; cbn [negb fst snd STATE]; [repeat split|].
  split; [reflexivity|]. split; [reflexivity|].
  eexists. split; [reflexivity|]. unfold por. cbv zeta. split; [|reflexivity].
  destruct (truthy (strip (default [] (stderr result)))) eqn:H1;
    [destruct (strip _); [discriminate H1 | discriminate]|].
  destruct (truthy (strip (default [] (stdout result)))) eqn:H2;
    [destruct (strip (default [] (stdout result))); [discriminate H2 | discriminate]|].
  discriminate.
Qed.

Lemma probe_mlx_runtime_outcome_witness :
  let E := make_env [] []
             (Ok {| returncode := 1; stdout := Some (lit " from stdout ");
                    stderr := Some (lit " No module named 'mlx_audio'  ") |})
             (Ok 1%N) (exited 1 []) false in
  mlx_probe_attempted (STATE initial_proc) = false /\
  mlx_probe_attempted (STATE (snd (probe_mlx_runtime E initial_proc))) = true /\
  mlx_probe_available (STATE (snd (probe_mlx_runtime E initial_proc))) = false /\
  mlx_probe_error (STATE (snd (probe_mlx_runtime E initial_proc)))
  = Some (lit "No module named 'mlx_audio'").
Proof.
  intros E. split; [reflexivity|].
  destruct (probe_mlx_runtime_outcome E initial_proc eq_refl) as [H1 [H2 _]].
  split; [exact H1|]. split; [exact H2 | reflexivity].
Defined.

(** ** More on the chain of attempts *)

Lemma adds_only_preserves {A} allowed (m : M A) :
  preserves attempts m -> adds_only allowed m.
Proof. intros H p. exists []. rewrite H, app_nil_r. auto. Qed.

Lemma adds_only_bind {A B} allowed (m : M A) (k : A -> M B) :
  adds_only allowed m -> (forall a, adds_only allowed (k a)) ->
  adds_only allowed (bind m k).
Proof.
  intros Hm Hk p. unfold bind. destruct (Hm p) as (c1 & H1 & Ha1).
  destruct (m p) as [[a|e] p']; cbn [snd] in *; [|eauto].
  destruct (Hk a p') as (c2 & H2 & Ha2). exists (c1 ++ c2).
  rewrite H2, H1, app_assoc, forallb_app, Ha1, Ha2. auto.
Qed.

Lemma adds_only_try_return {A} allowed (m k : M A) :
  adds_only allowed m -> adds_only allowed k -> adds_only allowed (try_return m k).
Proof.
  intros Hm Hk p. unfold try_return. destruct (Hm p) as (c1 & H1 & Ha1).
  destruct (m p) as [[a|e] p']; cbn [snd] in *; [eauto|].
  destruct (Hk p') as (c2 & H2 & Ha2). exists (c1 ++ c2).
  rewrite H2, H1, app_assoc, forallb_app, Ha1, Ha2. auto.
Qed.

Lemma tracks_try_return (m k : M SynthResult) :
  tracks m -> tracks k -> tracks (try_return m k).
Proof.
  intros Hm Hk p. unfold try_return. destruct (Hm p) as (c1 & H1 & Hr1).
  destruct (m p) as [[r|e] p']; cbn [fst snd] in *; [eauto|].
  destruct (Hk p') as (c2 & H2 & Hr2). exists (c1 ++ c2).
  rewrite H2, H1, app_assoc. split; [reflexivity|].
  destruct (fst (k p')) as [r|]; [|exact I].
  destruct Hr2 as (before & b & -> & Hb). exists (c1 ++ before), b.
  rewrite app_assoc. auto.
Qed.

Lemma tracks_quiet_bind {A} (m : M A) (k : A -> M SynthResult) :
  preserves attempts m -> (forall a, tracks (k a)) -> tracks (bind m k).
Proof.
  intros Hm Hk p. unfold bind. specialize (Hm p).
  destruct (m p) as [[a|e] p']; cbn [fst snd] in *.
  - destruct (Hk a p') as (c & H & Hr). exists c. rewrite H, Hm. auto.
  - exists []. rewrite Hm, app_nil_r. auto.
Qed.

Section Chains.

Context {L : PyLib}.

Lemma synthesize_kokoro_node_attempts E text output_path speed voice_id p :
  attempts (snd (synthesize_kokoro_node E text output_path speed voice_id p))
  = attempts p ++ [Node]
  /\ node_calls (snd (synthesize_kokoro_node E text output_path speed voice_id p))
     = S (node_calls p).
Proof.
  unfold synthesize_kokoro_node. split.
  - apply attempts_after_note. frame.
  - unfold bind, note_attempt, next_node, lift. cbn [fst snd node_calls].
    destruct (resolve_kokoro_node_script_path E); cbn [fst snd]; [|reflexivity].
    destruct (node_prepare E (node_calls p)); cbn [fst snd]; [|reflexivity].
    destruct (run_node E _ _ _ _ _ _); cbn [fst snd]; reflexivity.
Qed.

Lemma tracks_node E text output_path speed voice_id :
  tracks (synthesize_kokoro_node E text output_path speed voice_id).
Proof.
  intros p. exists [Node]. split; [apply synthesize_kokoro_node_attempts|].
  pose proof (post_synthesize_kokoro_node E text output_path speed voice_id p) as H.
  destruct (fst _) as [r|]; [|exact I]. exists [], Node. split; [reflexivity | apply H].
Qed.

Lemma tracks_stub E text output_path speed model :
  tracks (bind (synthesize_stub E text output_path speed model)
            (fun _ => ret {| wav_path := output_path; used_engine := lit "stub" |})).
Proof.
  intros p. exists [Stub]. rewrite snd_bind_ret. split; [apply synthesize_stub_attempts|].
  unfold bind. destruct (synthesize_stub E text output_path speed model p) as [[r|e] p'];
    cbn [fst]; [|exact I].
  exists [], Stub. split; reflexivity.
Qed.

Lemma tracks_mlx E text output_path speed model voice_id expression_tags :
  tracks (bind (synthesize_mlx E text output_path speed model voice_id expression_tags)
            (fun _ => ret {| wav_path := output_path; used_engine := lit "mlx-audio" |})).
Proof.
  intros p. exists [Mlx]. rewrite snd_bind_ret. split; [apply synthesize_mlx_attempts|].
  unfold bind.
  destruct (synthesize_mlx E text output_path speed model voice_id expression_tags p)
    as [[r|e] p']; cbn [fst]; [|exact I].
  exists [], Mlx. split; reflexivity.
Qed.

Lemma tracks_synthesize E text output_path speed model voice_id expression_tags :
  tracks (synthesize E text output_path speed model voice_id expression_tags).
Proof.
  unfold synthesize.
  pose proof (tracks_node E (apply_expression_tags (normalize_for_speech text)
                               expression_tags) output_path speed voice_id) as Hnode.
  pose proof (tracks_stub E (normalize_for_speech text) output_path speed model) as Hstub.
  assert (Hafter : tracks (if should_try_node_after_python E model
                           then try_return
                                  (synthesize_kokoro_node E
                                     (apply_expression_tags (normalize_for_speech text)
                                        expression_tags) output_path speed voice_id)
                                  (bind (synthesize_stub E (normalize_for_speech text)
                                           output_path speed model)
                                     (fun _ => ret {| wav_path := output_path;
                                                      used_engine := lit "stub" |}))
                           else bind (synthesize_stub E (normalize_for_speech text)
                                        output_path speed model)
                                  (fun _ => ret {| wav_path := output_path;
                                                   used_engine := lit "stub" |}))).
  { destruct (should_try_node_after_python E model);
      [apply tracks_try_return|]; assumption. }
  cbv zeta.
  assert (Hpython : forall available : bool,
    tracks (if negb available
            then if should_try_node_after_python E model
                 then try_return
                        (synthesize_kokoro_node E
                           (apply_expression_tags (normalize_for_speech text)
                              expression_tags) output_path speed voice_id)
                        (bind (synthesize_stub E (normalize_for_speech text)
                                 output_path speed model)
                           (fun _ => ret {| wav_path := output_path;
                                            used_engine := lit "stub" |}))
                 else bind (synthesize_stub E (normalize_for_speech text)
                              output_path speed model)
                        (fun _ => ret {| wav_path := output_path;
                                         used_engine := lit "stub" |})
            else try_return
                   (bind (synthesize_mlx E (apply_expression_tags
                                              (normalize_for_speech text) expression_tags)
                            output_path speed model voice_id [])
                      (fun _ => ret {| wav_path := output_path;
                                       used_engine := lit "mlx-audio" |}))
                   (if should_try_node_after_python E model
                    then try_return
                           (synthesize_kokoro_node E
                              (apply_expression_tags (normalize_for_speech text)
                                 expression_tags) output_path speed voice_id)
                           (bind (synthesize_stub E (normalize_for_speech text)
                                    output_path speed model)
                              (fun _ => ret {| wav_path := output_path;
                                               used_engine := lit "stub" |}))
                    else bind (synthesize_stub E (normalize_for_speech text)
                                 output_path speed model)
                           (fun _ => ret {| wav_path := output_path;
                                            used_engine := lit "stub" |})))).
  { intros available. destruct (negb available); [exact Hafter|].
    apply tracks_try_return; [apply tracks_mlx | exact Hafter]. }
  destruct (should_try_node_before_python E model).
  - apply tracks_try_return; [exact Hnode|].
    apply tracks_quiet_bind; [apply mlx_runtime_available_ghost | exact Hpython].
  - apply tracks_quiet_bind; [apply mlx_runtime_available_ghost | exact Hpython].
Qed.

(** X19: the engine a result of [synthesize] reports is that of the
    backend attempted last: attempts are only added during the call, and
    the last one added carries the name in [used_engine]. *)
Theorem synthesize_reports_last_attempt (E : Env) (text output_path : str) (speed : Q)
    (model voice_id : str) (expression_tags : list str) (p : Proc) (r : SynthResult) :
  fst (synthesize E text output_path speed model voice_id expression_tags p) = Ok r ->
  exists before b,
    attempts (snd (synthesize E text output_path speed model voice_id expression_tags p))
    = attempts p ++ before ++ [b]
    /\ used_engine r = engine_name b.
Proof.
  intros H.
  destruct (tracks_synthesize E text output_path speed model voice_id expression_tags p)
    as (chain & Hc & Hr).
  rewrite H in Hr. destruct Hr as (before & b & -> & Hb). eauto.
Qed.

End Chains.

Lemma synthesize_reports_last_attempt_witness :
  let call := synthesize (L := posix_ascii) bare_env (lit "hi") (lit "/tmp/o.wav") 1
                (lit "kokoro") (lit "kokoro_narrator") [] initial_proc in
  fst call = Ok {| wav_path := lit "/tmp/o.wav"; used_engine := lit "stub" |} /\
  exists before b,
    attempts (snd call) = [] ++ before ++ [b] /\ lit "stub" = engine_name b.
Proof.
  intros call. split; [reflexivity|].
  exact (synthesize_reports_last_attempt (L := posix_ascii) bare_env (lit "hi")
           (lit "/tmp/o.wav") 1 (lit "kokoro") (lit "kokoro_narrator") [] initial_proc
           {| wav_path := lit "/tmp/o.wav"; used_engine := lit "stub" |} eq_refl).
Defined.

Section Fallbacks.

Context {L : PyLib}.

Lemma adds_only_node allowed E text output_path speed voice_id :
  allowed Node = true ->
  adds_only allowed (synthesize_kokoro_node E text output_path speed voice_id).
Proof.
  intros H p. exists [Node]. split; [apply synthesize_kokoro_node_attempts|].
  cbn. rewrite H. reflexivity.
Qed.

Lemma adds_only_stub allowed E text output_path speed model :
  allowed Stub = true ->
  adds_only allowed (synthesize_stub E text output_path speed model).
Proof.
  intros H p. exists [Stub]. split; [apply synthesize_stub_attempts|].
  cbn. rewrite H. reflexivity.
Qed.

Lemma bind_ret {A B} (a : A) (k : A -> M B) : bind (ret a) k = k a.
Proof. reflexivity. Qed.

(** X20: with the mlx runtime disabled by LOCAL_PODCAST_ENABLE_MLX,
    [synthesize] never runs the probe, never touches [STATE], never calls
    the model loader and never attempts the mlx backend. *)
Theorem synthesize_with_mlx_disabled (E : Env) (text output_path : str) (speed : Q)
    (model voice_id : str) (expression_tags : list str) (p : Proc) :
  mlx_runtime_enabled E = false ->
  let p' := snd (synthesize E text output_path speed model voice_id expression_tags p) in
  STATE p' = STATE p /\ load_calls p' = load_calls p
  /\ exists chain, attempts p' = attempts p ++ chain /\ forallb not_mlx chain = true.
Proof.
  intros He. cbv zeta.
  assert (Hav : mlx_runtime_available E = ret false)
    by (unfold mlx_runtime_available; rewrite He; reflexivity).
  destruct (synthesize_kokoro_node_state E
              (apply_expression_tags (normalize_for_speech text) expression_tags)
              output_path speed voice_id) as [Hn1 Hn2].
  destruct (synthesize_stub_state E (normalize_for_speech text) output_path speed model)
    as (Hs1 & Hs2 & _).
  pose proof (adds_only_node not_mlx E
                (apply_expression_tags (normalize_for_speech text) expression_tags)
                output_path speed voice_id eq_refl) as Ha1.
  pose proof (adds_only_stub not_mlx E (normalize_for_speech text) output_path speed model
                eq_refl) as Ha2.
  unfold synthesize. rewrite Hav. cbv zeta. rewrite !bind_ret. cbn [negb].
  split; [|split].
  - match goal with
    | |- STATE (snd (?m p)) = _ => assert (H : preserves STATE m) by frame; apply H
    end.
  - match goal with
    | |- load_calls (snd (?m p)) = _ =>
        assert (H : preserves load_calls m) by frame; apply H
    end.
  - match goal with
    | |- exists chain, attempts (snd (?m p)) = _ /\ _ =>
        assert (H : adds_only not_mlx m);
        [ repeat match goal with
                 | |- adds_only _ (match ?x with _ => _ end) => destruct x
                 | |- adds_only _ (bind _ _) => apply adds_only_bind; [|intros ?]
                 | |- adds_only _ (try_return _ _) => apply adds_only_try_return
                 end;
          try assumption; apply adds_only_preserves, preserves_ret
        | apply H ]
    end.
Qed.

End Fallbacks.

Lemma synthesize_with_mlx_disabled_witness :
  let E := make_env [(lit "LOCAL_PODCAST_ENABLE_MLX", lit "False")] []
             (exited 0 []) (Ok 1%N) (exited 1 []) false in
  let p' := snd (synthesize (L := posix_ascii) E (lit "hi") (lit "/tmp/o.wav") 1
                   (lit "kokoro") (lit "kokoro_narrator") [] initial_proc) in
  mlx_runtime_enabled (L := posix_ascii) E = false /\
  STATE p' = STATE initial_proc /\ load_calls p' = 0
  /\ exists chain, attempts p' = [] ++ chain /\ forallb not_mlx chain = true.
Proof.
  intros E p'. split; [reflexivity|].
  exact (synthesize_with_mlx_disabled (L := posix_ascii) E (lit "hi") (lit "/tmp/o.wav") 1
           (lit "kokoro") (lit "kokoro_narrator") [] initial_proc eq_refl).
Defined.

Section Retries.

Context {L : PyLib}.

(** Every mode that tries the node backend first also allows it as a
    fallback. *)
Lemma node_before_implies_after E model :
  should_try_node_before_python E model = true ->
  should_try_node_after_python E model = true.
Proof.
  unfold should_try_node_before_python, should_try_node_after_python.
  destruct (negb (str_eqb model (lit "kokoro"))); [discriminate|].
  unfold str_in. cbn [existsb].
  destruct (str_eqb (kokoro_backend_mode E) (lit "node"));
    destruct (str_eqb (kokoro_backend_mode E) (lit "node-first"));
    try discriminate; intros _; rewrite ?orb_true_r; reflexivity.
Qed.

(** The fallback pair of node and stub, when it is the stub that
    answers. *)
Lemma node_then_stub E text cleaned output_path speed model voice_id q r p' :
  try_return (synthesize_kokoro_node E text output_path speed voice_id)
    (bind (synthesize_stub E cleaned output_path speed model)
       (fun _ => ret {| wav_path := output_path; used_engine := lit "stub" |})) q
  = (Ok r, p') ->
  used_engine r = lit "stub" ->
  attempts p' = attempts q ++ [Node; Stub] /\ node_calls p' = S (node_calls q).
Proof.
  unfold try_return.
  destruct (synthesize_kokoro_node_attempts E text output_path speed voice_id q) as [Ha Hn].
  pose proof (post_synthesize_kokoro_node E text output_path speed voice_id q) as Hp.
  destruct (synthesize_kokoro_node E text output_path speed voice_id q) as [[a|e] q1];
    cbn [fst snd] in *.
  - intros [= -> ->] Hr. destruct Hp as [_ Hp]. rewrite Hp in Hr. discriminate Hr.
  - intros H _. apply (f_equal snd) in H. cbn [snd] in H. rewrite snd_bind_ret in H.
    subst p'. destruct (synthesize_stub_state E cleaned output_path speed model)
      as (_ & _ & Hsn).
    rewrite synthesize_stub_attempts, Hsn, Ha, Hn, <- app_assoc. auto.
Qed.

(** X21: in a mode that tries the node backend first, a request that
    ends on the stub has invoked the node backend twice: once before and
    once after the mlx stage, whether mlx was unavailable or failed. *)
Theorem synthesize_node_first_retries (E : Env) (text output_path : str) (speed : Q)
    (model voice_id : str) (expression_tags : list str) (p : Proc) (r : SynthResult) :
  should_try_node_before_python E model = true ->
  fst (synthesize E text output_path speed model voice_id expression_tags p) = Ok r ->
  used_engine r = lit "stub" ->
  let p' := snd (synthesize E text output_path speed model voice_id expression_tags p) in
  node_calls p' = S (S (node_calls p))
  /\ (attempts p' = attempts p ++ [Node; Node; Stub]
      \/ attempts p' = attempts p ++ [Node; Mlx; Node; Stub]).
Proof.
  intros Hb Hres Heng. cbv zeta.
  pose proof (node_before_implies_after E model Hb) as Haf.
  destruct (synthesize E text output_path speed model voice_id expression_tags p)
    as [res p'] eqn:Hs.
  cbn [fst snd] in *. subst res. revert Hs.
  unfold synthesize. rewrite Hb, Haf. cbv zeta. unfold try_return at 1.
  set (rt := apply_expression_tags (normalize_for_speech text) expression_tags).
  destruct (synthesize_kokoro_node_attempts E rt output_path speed voice_id p) as [Ha1 Hn1].
  pose proof (post_synthesize_kokoro_node E rt output_path speed voice_id p) as Hp.
  destruct (synthesize_kokoro_node E rt output_path speed voice_id p) as [[a|e] p1];
    cbn [fst snd] in *.
  { intros [= -> ->]. destruct Hp as [_ Hp]. rewrite Hp in Heng. discriminate Heng. }
  clear Hp. unfold bind at 1.
  destruct (mlx_runtime_available_ghost E) as (_ & Hn2 & Ha2).
  specialize (Hn2 p1). specialize (Ha2 p1).
  destruct (mlx_runtime_available E p1) as [[available|e'] p2]; cbn [fst snd] in *;
    [|discriminate].
  destruct available; cbn [negb].
  - unfold try_return at 1.
    destruct (synthesize_mlx_attempts E rt output_path speed model voice_id [] p2)
      as [Ha3 Hn3].
    rewrite <- (snd_bind_ret _ {| wav_path := output_path;
                                  used_engine := lit "mlx-audio" |}) in Ha3, Hn3.
    assert (Hm : forall a, fst (bind (synthesize_mlx E rt output_path speed model
                                        voice_id [])
                                  (fun _ => ret {| wav_path := output_path;
                                                   used_engine := lit "mlx-audio" |}) p2)
                           = Ok a -> used_engine a = lit "mlx-audio").
    { unfold bind, ret. destruct (synthesize_mlx E rt output_path speed model voice_id [] p2)
        as [[u|e'] p3]; cbn [fst]; [intros a [= <-]; reflexivity | discriminate]. }
    destruct (bind (synthesize_mlx E rt output_path speed model voice_id []) _ p2)
      as [[a|e'] p3]; cbn [fst snd] in *.
    + intros [= -> ->]. rewrite (Hm r eq_refl) in Heng. discriminate Heng.
    + intros H. apply node_then_stub in H as [H1 H2]; [|exact Heng].
      rewrite H1, H2, Ha3, Hn3, Ha2, Hn2, Ha1, Hn1, <- !app_assoc. auto.
  - intros H. apply node_then_stub in H as [H1 H2]; [|exact Heng].
    rewrite H1, H2, Ha2, Hn2, Ha1, Hn1, <- !app_assoc. auto.
Qed.

End Retries.

Lemma synthesize_node_first_retries_witness :
  let E := node_env 2 (lit "boom") true in
  let call := synthesize (L := posix_ascii) E (lit "hi") (lit "/tmp/o.wav") 1
                (lit "kokoro") (lit "kokoro_narrator") [] initial_proc in
  let r := {| wav_path := lit "/tmp/o.wav"; used_engine := lit "stub" |} in
  should_try_node_before_python (L := posix_ascii) E (lit "kokoro") = true /\
  fst call = Ok r /\ used_engine r = lit "stub" /\
  node_calls (snd call) = 2
  /\ (attempts (snd call) = [] ++ [Node; Node; Stub]
      \/ attempts (snd call) = [] ++ [Node; Mlx; Node; Stub]).
Proof.
  intros E call r. split; [reflexivity|]. split; [reflexivity|]. split; [reflexivity|].
  exact (synthesize_node_first_retries (L := posix_ascii) E (lit "hi") (lit "/tmp/o.wav") 1
           (lit "kokoro") (lit "kokoro_narrator") [] initial_proc r eq_refl eq_refl eq_refl).
Defined.

(** ** Modes without the node backend *)

(** X22: when the backend mode does not allow the node backend as a
    fallback (any mode outside auto, node, node-first, node-fallback and
    python-node, such as an unrecognised value), [synthesize] never calls
    it, for kokoro as for any other model: the attempts are the stub
    alone, mlx alone, or mlx and then the stub. *)
Theorem synthesize_without_node_fallback {L : PyLib} (E : Env) (text output_path : str)
    (speed : Q) (model voice_id : str) (expression_tags : list str) (p : Proc) :
  should_try_node_after_python E model = false ->
  let p' := snd (synthesize E text output_path speed model voice_id expression_tags p) in
  node_calls p' = node_calls p /\
  (attempts p' = attempts p ++ [Stub] \/ attempts p' = attempts p ++ [Mlx]
   \/ attempts p' = attempts p ++ [Mlx; Stub]).
Proof.
  intros Ha. cbv zeta.
  assert (Hb : should_try_node_before_python E model = false).
  { destruct (should_try_node_before_python E model) eqn:Hb; [|reflexivity].
    rewrite (node_before_implies_after E model Hb) in Ha. discriminate Ha. }
  remember (snd (synthesize E text output_path speed model voice_id expression_tags p))
    as p' eqn:Hp'.
  unfold synthesize in Hp'. rewrite Hb, Ha in Hp'. cbv zeta in Hp'.
  destruct (mlx_runtime_available_ghost E) as (_ & Hn & Hat).
  specialize (Hn p). specialize (Hat p).
  pose proof (post_mlx_runtime_available E p) as Hok.
  unfold bind at 1 in Hp'.
  destruct (mlx_runtime_available E p) as [[available|e] p1]; cbn [fst snd] in *;
    [|destruct Hok].
  destruct (synthesize_stub_state E (normalize_for_speech text) output_path speed model)
    as (_ & _ & Hsn).
  destruct available; cbn [negb] in Hp'.
  - unfold try_return in Hp'.
    destruct (synthesize_mlx_attempts E
                (apply_expression_tags (normalize_for_speech text) expression_tags)
                output_path speed model voice_id [] p1) as [Hma Hmn].
    rewrite <- (snd_bind_ret _ {| wav_path := output_path;
                                  used_engine := lit "mlx-audio" |}) in Hma, Hmn.
    destruct (bind (synthesize_mlx E _ output_path speed model voice_id []) _ p1)
      as [[r|e] p2]; cbn [fst snd] in *; subst p'.
    + split; [congruence|]. right. left. congruence.
    + rewrite snd_bind_ret, Hsn, synthesize_stub_attempts, Hma, Hat, Hmn, Hn.
      split; [reflexivity|]. right. right. rewrite <- app_assoc. reflexivity.
  - subst p'. rewrite snd_bind_ret, Hsn, synthesize_stub_attempts, Hat, Hn. auto.
Qed.

Lemma synthesize_without_node_fallback_witness :
  let E := make_env [(lit "LOCAL_PODCAST_KOKORO_BACKEND", lit " Python ")]
             [lit "/app/services/kokoro-node/cli.mjs"]
             (exited 1 []) (Raise (OtherError (lit "ImportError") [])) (exited 0 []) true in
  let p' := snd (synthesize (L := posix_ascii) E (lit "hi") (lit "/tmp/o.wav") 1
                   (lit "kokoro") (lit "kokoro_narrator") [] initial_proc) in
  should_try_node_after_python (L := posix_ascii) E (lit "kokoro") = false /\
  node_calls p' = 0 /\
  (attempts p' = [] ++ [Stub] \/ attempts p' = [] ++ [Mlx]
   \/ attempts p' = [] ++ [Mlx; Stub]).
Proof.
  intros E p'. split; [reflexivity|].
  exact (synthesize_without_node_fallback (L := posix_ascii) E (lit "hi") (lit "/tmp/o.wav")
           1 (lit "kokoro") (lit "kokoro_narrator") [] initial_proc eq_refl).
Defined.
